(** * CoG Saver: a shallow embedding of [cog_saver.py]

    The save manager keeps one live save path, a derived archive directory
    and quick-save path, and copies files between them.  The embedding
    follows the Python source method by method.  The Python runtime the
    methods call into (text strings, [datetime.strftime], [pathlib] with the
    POSIX flavour of CPython 3.11, [re], the file system behind [shutil] and
    [open]) is modelled first; the methods of class [CoGSaver] come after,
    written in a small state-and-exception monad. *)

From Stdlib.Strings Require Import Ascii String Byte.
From stdpp Require Import gmap list strings numbers pretty.

Local Open Scope N_scope.

(** ** Python text strings *)

(** A Python [str] is a sequence of Unicode code points. *)
Abbreviation str := (list N).

(** An ASCII literal of the source as a [str]. *)
Definition py (s : string) : str := N_of_ascii <$> list_ascii_of_string s.

Definition dquote : N := 34.
Definition squote : N := 39.
Definition newline : N := 10.
Definition space : N := 32.
Definition slash : N := 47.
Definition dot : N := 46.
Definition percent : N := 37.
Definition backslash : N := 92.

(** [not s] for a string: the empty string is falsy. *)
Definition truthy (s : str) : bool :=
  match s with [] => false | _ :: _ => true end.

(** [s.endswith(suf)] *)
Definition endswith (s suf : str) : bool := bool_decide (suf `suffix_of` s).

(** [s.replace(old, new)] for a one-character [old]. *)
Definition replace_char (old : N) (new : str) (s : str) : str :=
  s ≫= (λ c, if N.eqb c old then new else [c]).

(** [sep.join(parts)] *)
Fixpoint join (sep : str) (parts : list str) : str :=
  match parts with
  | [] => []
  | [p] => p
  | p :: ps => p ++ sep ++ join sep ps
  end.

(** [s.split(sep)] for a one-character separator: never returns the empty
    list. *)
Fixpoint split (sep : N) (s : str) : list str :=
  match s with
  | [] => [[]]
  | c :: s' =>
      if N.eqb c sep then [] :: split sep s'
      else match split sep s' with
           | [] => [[c]]
           | w :: ws => (c :: w) :: ws
           end
  end.

(** [s.lstrip(c)] *)
Fixpoint lstrip (c : N) (s : str) : str :=
  match s with
  | x :: s' => if N.eqb x c then lstrip c s' else s
  | [] => []
  end.

(** [s.rfind(c)], computed on [s] whose first character has index [i]:
    the index of the last occurrence, or -1. *)
Fixpoint rfind_from (c : N) (s : str) (i : Z) : Z :=
  match s with
  | [] => (-1)%Z
  | x :: s' =>
      let r := rfind_from c s' (i + 1)%Z in
      if (0 <=? r)%Z then r else if N.eqb x c then i else (-1)%Z
  end.

Definition rfind (c : N) (s : str) : Z := rfind_from c s 0.

(** ** [datetime.now().strftime(fmt)] *)

Record datetime := DateTime {
  year : nat; month : nat; day : nat;
  hour : nat; minute : nat; second : nat
}.

Definition digit (n : nat) : N := 48 + N.of_nat (n mod 10).

(** A number below one hundred as two decimal digits, zero padded. *)
Definition pad2 (n : nat) : str := [digit (n / 10); digit n].

(** One conversion of the format: the character after the percent sign. *)
Definition directive (d : N) (t : datetime) : str :=
  if N.eqb d 121 then pad2 (year t mod 100)        (* %y *)
  else if N.eqb d 109 then pad2 (month t)          (* %m *)
  else if N.eqb d 100 then pad2 (day t)            (* %d *)
  else if N.eqb d 72 then pad2 (hour t)            (* %H *)
  else if N.eqb d 77 then pad2 (minute t)          (* %M *)
  else if N.eqb d 83 then pad2 (second t)          (* %S *)
  else [percent; d].

Fixpoint strftime (fmt : str) (t : datetime) : str :=
  match fmt with
  | [] => []
  | c :: rest =>
      if N.eqb c percent then
        match rest with
        | d :: rest' => directive d t ++ strftime rest' t
        | [] => [percent]
        end
      else c :: strftime rest t
  end.

(** The two formats of the source. *)
Definition fmt_message : str := py "%H:%M:%S".
Definition fmt_name : str := py "%y.%m.%d %H.%M".

(** ** [pathlib.Path], POSIX flavour *)

Module Pathlib.

(** A parsed path: the root (empty, one slash or two slashes) and the
    components after it. *)
Record Path := mkPath { root : str; tail : list str }.

#[global] Instance Path_eq_dec : EqDecision Path.
Proof. solve_decision. Defined.

#[global] Instance Path_countable : Countable Path.
Proof.
  apply (inj_countable' (λ p, (root p, tail p)) (λ x, mkPath x.1 x.2)).
  by intros [].
Defined.

(** [_PosixFlavour.splitroot] *)
Definition splitroot (part : str) : str * str :=
  match part with
  | c :: _ =>
      if N.eqb c slash then
        let stripped_part := lstrip slash part in
        if Nat.eqb (length part - length stripped_part) 2
        then ([slash; slash], stripped_part)
        else ([slash], stripped_part)
      else ([], part)
  | [] => ([], part)
  end.

(** [Path(s)]: [parse_parts] on a single argument. *)
Definition parse (s : str) : Path :=
  let '(rt, rel) := splitroot s in
  mkPath rt (filter (λ x, x ≠ [] ∧ x ≠ [dot]) (split slash rel)).

(** [str(p)] *)
Definition to_str (p : Path) : str :=
  match root p ++ join [slash] (tail p) with
  | [] => [dot]
  | s => s
  end.

(** [p.name] *)
Definition name (p : Path) : str := List.last (tail p) [].

(** [p.parent] *)
Definition parent (p : Path) : Path :=
  match tail p with
  | [] => p
  | _ => mkPath (root p) (removelast (tail p))
  end.

(** [p.parents] *)
Fixpoint ancestors (rt : str) (tl : list str) (n : nat) : list Path :=
  match n with
  | O => []
  | S n' => mkPath rt (removelast tl) :: ancestors rt (removelast tl) n'
  end.

Definition parents (p : Path) : list Path :=
  ancestors (root p) (tail p) (length (tail p)).

(** [p / key]: [join_parsed_parts] without drives. *)
Definition joinpath (p : Path) (key : str) : Path :=
  let q := parse key in
  if truthy (root q) then q else mkPath (root p) (tail p ++ tail q).

(** [parent_path._make_child_relpath(name)], used by [glob]. *)
Definition child (p : Path) (n : str) : Path := mkPath (root p) (tail p ++ [n]).

(** [p.suffix] *)
Definition suffix (p : Path) : str :=
  let nm := name p in
  let i := rfind dot nm in
  if bool_decide (0 < i < Z.of_nat (length nm) - 1)%Z
  then drop (Z.to_nat i) nm
  else [].

End Pathlib.
Export Pathlib.

Notation "p // key" := (joinpath p key) (at level 40, left associativity).

(** [p.with_suffix(suffix)] for a valid [suffix] (it starts with a dot, is
    not the dot alone and holds no separator); [None] stands for the
    [ValueError] raised on a path with an empty name. *)
Definition with_suffix (p : Path) (sfx : str) : option Path :=
  let nm := name p in
  if truthy nm then
    let old_suffix := suffix p in
    let nm' := if truthy old_suffix
               then take (length nm - length old_suffix) nm ++ sfx
               else nm ++ sfx in
    Some (mkPath (root p) (removelast (tail p) ++ [nm']))
  else None.

(** [p.relative_to(other)]; [None] stands for the [ValueError] raised when
    [other] is not a prefix of [p]. *)
Definition relative_to (p other : Path) : option Path :=
  if bool_decide (root p = root other ∧ tail other `prefix_of` tail p)
  then Some (mkPath [] (drop (length (tail other)) (tail p)))
  else None.

(** ** Exceptions *)

Inductive exn_class :=
  | OSError | FileNotFoundError | FileExistsError | IsADirectoryError
  | NotADirectoryError | PermissionError | SameFileError
  | UnicodeDecodeError | ValueError | RuntimeError.

(** [isinstance(e, OSError)]: the classes [except OSError] catches. *)
Definition is_OSError (c : exn_class) : bool :=
  match c with
  | UnicodeDecodeError | ValueError | RuntimeError => false
  | _ => true
  end.

(** An exception: its class and [str(e)]. *)
Record exn := Exn { exn_cls : exn_class; exn_str : str }.

#[global] Instance exn_class_eq_dec : EqDecision exn_class.
Proof. solve_decision. Defined.

#[global] Instance exn_eq_dec : EqDecision exn.
Proof. solve_decision. Defined.

Definition quoted (s : str) : str := [squote] ++ s ++ [squote].

(** [n] in lower-case hexadecimal, on [digits] digits. *)
Definition hex_digit (n : N) : N := if n <? 10 then 48 + n else 87 + n.

Fixpoint hex (digits : nat) (n : N) : str :=
  match digits with
  | O => []
  | S d => hex d (n / 16) ++ [hex_digit (n mod 16)]
  end.

(** [str.isprintable] above ASCII, as the Unicode database has it up to
    U+00FF: the C1 controls, the no-break space and the soft hyphen are
    not printable.  The database is not reproduced above U+00FF, where
    every code point is taken as printable. *)
Definition isprintable (c : N) : bool := negb ((c <=? 160) || (c =? 173)).

(** One character of [repr(s)], inside the quote [q]. *)
Definition repr_char (q c : N) : str :=
  if (c =? q) || (c =? backslash) then [backslash; c]
  else if c =? 9 then [backslash; 116]
  else if c =? 10 then [backslash; 110]
  else if c =? 13 then [backslash; 114]
  else if (c <? 32) || (c =? 127) then [backslash; 120] ++ hex 2 c
  else if c <? 127 then [c]
  else if isprintable c then [c]
  else if c <? 256 then [backslash; 120] ++ hex 2 c
  else if c <? 65536 then [backslash; 117] ++ hex 4 c
  else [backslash; 85] ++ hex 8 c.

(** [repr(s)] of a string: in single quotes, unless it holds a single
    quote and no double quote; the quote in use and the backslash are
    escaped, and so is every character that is not printable. *)
Definition repr (s : str) : str :=
  let q := if bool_decide (squote ∈ s ∧ dquote ∉ s) then dquote else squote in
  [q] ++ (s ≫= repr_char q) ++ [q].

(** [repr(p)] of a path object. *)
Definition repr_path (p : Path) : str :=
  py "PosixPath(" ++ repr (to_str p) ++ py ")".

(** [str(e)] of the [OSError] of a system call on the file name [p]:
    the error number, its text, and [repr] of the file name. *)
Definition os_error (c : exn_class) (p : Path) : exn :=
  let text :=
    match c with
    | FileNotFoundError => py "[Errno 2] No such file or directory: "
    | FileExistsError => py "[Errno 17] File exists: "
    | NotADirectoryError => py "[Errno 20] Not a directory: "
    | IsADirectoryError => py "[Errno 21] Is a directory: "
    | PermissionError => py "[Errno 13] Permission denied: "
    | _ => py "[Errno 5] Input/output error: "
    end in
  Exn c (text ++ repr (to_str p)).

(** ** Reading text: UTF-8 and universal newlines *)

(** The value of continuation byte [b], if it is one. *)
Definition cont (b : byte) : option N :=
  let n := Byte.to_N b in
  if (128 <=? n) && (n <? 192) then Some (n - 128) else None.

(** [bytes.decode("utf-8")], strict: [None] stands for
    [UnicodeDecodeError].  Overlong forms, surrogates and values above
    U+10FFFF are refused. *)
Fixpoint utf8_decode (bs : list byte) : option str :=
  match bs with
  | [] => Some []
  | b0 :: bs1 =>
      let n0 := Byte.to_N b0 in
      if n0 <? 128 then (n0 ::.) <$> utf8_decode bs1
      else if (194 <=? n0) && (n0 <? 224) then
        match bs1 with
        | b1 :: bs2 =>
            c1 ← cont b1;
            ((n0 - 192) * 64 + c1 ::.) <$> utf8_decode bs2
        | _ => None
        end
      else if (224 <=? n0) && (n0 <? 240) then
        match bs1 with
        | b1 :: b2 :: bs3 =>
            c1 ← cont b1; c2 ← cont b2;
            let cp := (n0 - 224) * 4096 + c1 * 64 + c2 in
            if (2048 <=? cp) && negb ((55296 <=? cp) && (cp <? 57344))
            then (cp ::.) <$> utf8_decode bs3
            else None
        | _ => None
        end
      else if (240 <=? n0) && (n0 <? 245) then
        match bs1 with
        | b1 :: b2 :: b3 :: bs4 =>
            c1 ← cont b1; c2 ← cont b2; c3 ← cont b3;
            let cp := (n0 - 240) * 262144 + c1 * 4096 + c2 * 64 + c3 in
            if (65536 <=? cp) && (cp <? 1114112)
            then (cp ::.) <$> utf8_decode bs4
            else None
        | _ => None
        end
      else None
  end.

(** Text mode with [newline=None]: CR LF and a lone CR are read as LF. *)
Fixpoint universal_newlines (s : str) : str :=
  match s with
  | [] => []
  | c :: s' =>
      if N.eqb c 13 then
        match s' with
        | d :: s'' =>
            if N.eqb d newline then newline :: universal_newlines s''
            else newline :: universal_newlines s'
        | [] => [newline]
        end
      else c :: universal_newlines s'
  end.

(** ** Regular expressions: the fragment of [re] the source uses *)

Module Re.

Inductive regex :=
  | Eps
  | Chr (c : N)
  | Cat (r1 r2 : regex)
  | Alt (r1 r2 : regex)
  | Star (cls : N → bool)
  | Plus (cls : N → bool)
  | Group (n : nat) (r : regex).

(** A sequence of patterns, and a literal string. *)
Definition cat (rs : list regex) : regex := foldr Cat Eps rs.
Definition lit (s : str) : regex := cat (Chr <$> s).

(** [\s] on text patterns: the Unicode white space characters. *)
Definition isspace (c : N) : bool :=
  ((9 <=? c) && (c <=? 13)) || ((28 <=? c) && (c <=? 32))
  || (c =? 133) || (c =? 160) || (c =? 5760)
  || ((8192 <=? c) && (c <=? 8202))
  || (c =? 8232) || (c =? 8233) || (c =? 8239) || (c =? 8287)
  || (c =? 12288).

(** Any character but the double quote. *)
Definition not_dquote (c : N) : bool := negb (c =? dquote).

(** The groups of a match, by number. *)
Abbreviation groups := (gmap nat str).

(** A greedy repetition of a character class: the longest run is tried
    first, then the shorter ones, each with the rest of the pattern [k]. *)
Fixpoint repeat_class {A} (cls : N → bool) (s : str) (k : str → option A)
    : option A :=
  match s with
  | c :: s' =>
      if cls c then
        match repeat_class cls s' k with
        | Some m => Some m
        | None => k s
        end
      else k s
  | [] => k s
  end.

(** Backtracking match of [r] at the start of [s], with continuation [k]
    for the rest of the pattern. *)
Fixpoint match_at {A} (r : regex) (s : str) (g : groups)
    (k : str → groups → option A) : option A :=
  match r with
  | Eps => k s g
  | Chr c =>
      match s with
      | x :: s' => if N.eqb x c then k s' g else None
      | [] => None
      end
  | Cat r1 r2 => match_at r1 s g (λ s' g', match_at r2 s' g' k)
  | Alt r1 r2 =>
      match match_at r1 s g k with
      | Some m => Some m
      | None => match_at r2 s g k
      end
  | Star cls => repeat_class cls s (λ s', k s' g)
  | Plus cls =>
      match s with
      | x :: s' => if cls x then repeat_class cls s' (λ s'', k s'' g) else None
      | [] => None
      end
  | Group n r' =>
      match_at r' s g
        (λ s' g', k s' (<[n := take (length s - length s') s]> g'))
  end.

(** [re.match(r, s)] *)
Definition rmatch (r : regex) (s : str) : option groups :=
  match_at r s ∅ (λ _ g, Some g).

(** [re.search(r, s)]: the match at the leftmost position that has one. *)
Fixpoint search (r : regex) (s : str) : option groups :=
  match rmatch r s with
  | Some g => Some g
  | None =>
      match s with
      | [] => None
      | _ :: s' => search r s'
      end
  end.

(** [m.group(n)] for a group that took part in the match. *)
Definition group (m : groups) (n : nat) : str := default [] (m !! n).

End Re.

(** ** [fnmatch]: the shell patterns of [glob] *)

(** [*] matches any run of characters, [?] any one character; the
    pattern of the source has no bracket expression. *)
Fixpoint fnmatch (pat : str) (nm : str) : bool :=
  match pat with
  | [] => match nm with [] => true | _ => false end
  | c :: pat' =>
      if N.eqb c 42 then
        (fix star (s : str) : bool :=
           fnmatch pat' s ||
           match s with [] => false | _ :: s' => star s' end) nm
      else
        match nm with
        | [] => false
        | x :: nm' => ((N.eqb c 63) || (N.eqb x c)) && fnmatch pat' nm'
        end
  end.

(** ** The file system *)

Inductive Node := File (content : list byte) | Dir.

#[global] Instance byte_eq_dec : EqDecision byte := Byte.byte_eq_dec.

#[global] Instance Node_eq_dec : EqDecision Node.
Proof. solve_decision. Defined.

(** The file system maps a path, as the program spells it, to what is
    there.  Symbolic links and the working directory are left to the
    [realpath] oracle of the world below. *)
Abbreviation FS := (gmap Path Node).

Definition is_dir (f : FS) (p : Path) : bool :=
  match f !! p with Some Dir => true | _ => false end.

Definition is_file (f : FS) (p : Path) : bool :=
  match f !! p with Some (File _) => true | _ => false end.

(** The error of a call that finds nothing at [p], or nothing at the
    parent of [p]: the walk along the path stops at a regular file
    ([ENOTDIR]) when one of the ancestors of [p] is one, and at a missing
    component ([ENOENT]) otherwise. *)
Definition lookup_error (f : FS) (p : Path) : exn_class :=
  if existsb (is_file f) (parents p)
  then NotADirectoryError
  else FileNotFoundError.

(** [os.mkdir(p)] *)
Definition os_mkdir (p : Path) (f : FS) : exn + FS :=
  match f !! p with
  | Some _ => inl (os_error FileExistsError p)
  | None =>
      match f !! parent p with
      | Some Dir => inr (<[p := Dir]> f)
      | Some (File _) => inl (os_error NotADirectoryError p)
      | None => inl (os_error (lookup_error f p) p)
      end
  end.

(** [p.mkdir(exist_ok=True)]: the error is dropped when [p] is a
    directory already. *)
Definition mkdir_exist_ok (p : Path) (f : FS) : exn + FS :=
  match os_mkdir p f with
  | inl e => if is_dir f p then inr f else inl e
  | inr f' => inr f'
  end.

(** The entries of directory [d]: the paths one component below it. *)
Definition is_entry (d e : Path) : Prop := tail e ≠ [] ∧ parent e = d.

#[global] Instance is_entry_dec d e : Decision (is_entry d e).
Proof. unfold is_entry. apply _. Defined.

Definition scandir (d : Path) (f : FS) : list Path :=
  filter (is_entry d) (map_to_list f).*1.

(** [d.glob(pat)] for a pattern without separator: the entries of [d]
    whose name matches; nothing when [d] is not a directory. *)
Definition glob (d : Path) (pat : str) (f : FS) : list Path :=
  if is_dir f d
  then filter (λ e, fnmatch pat (name e) = true) (scandir d f)
  else [].

(** [open(p, "r", encoding="utf-8").read()] *)
Definition read_text (p : Path) (f : FS) : exn + str :=
  match f !! p with
  | None => inl (os_error (lookup_error f p) p)
  | Some Dir => inl (os_error IsADirectoryError p)
  | Some (File b) =>
      match utf8_decode b with
      | Some s => inr (universal_newlines s)
      | None =>
          inl (Exn UnicodeDecodeError
                 (py "'utf-8' codec can't decode byte: invalid start byte"))
      end
  end.

(** [shutil.copy2(src, dst)]: into [dst] when it is a directory (the
    target is then a string, no longer a path object); the same file is
    refused; then the source is opened, then the target.  Without links
    in the file system, two paths are the same file when they are the
    same path.  File times are not modelled. *)
Definition copy2 (src dst : Path) (f : FS) : exn + FS :=
  let into := is_dir f dst in
  let dst := if into then child dst (name src) else dst in
  if bool_decide (src = dst ∧ is_Some (f !! src)) then
    inl (Exn SameFileError
           (repr_path src ++ py " and "
            ++ (if into then repr (to_str dst) else repr_path dst)
            ++ py " are the same file"))
  else
    match f !! src with
    | None => inl (os_error (lookup_error f src) src)
    | Some Dir => inl (os_error IsADirectoryError src)
    | Some (File b) =>
        if is_dir f dst then inl (os_error IsADirectoryError dst)
        else
          match f !! parent dst with
          | Some Dir => inr (<[dst := File b]> f)
          | Some (File _) => inl (os_error NotADirectoryError dst)
          | None => inl (os_error (lookup_error f dst) dst)
          end
    end.

(** ** The world and the application object *)

(** The calls the program makes to the file system, in order. *)
Inductive io_event :=
  | IoExists (p : Path)
  | IoResolve (p : Path)
  | IoMkdir (p : Path)
  | IoGlob (p : Path) (pat : str)
  | IoRead (p : Path)
  | IoCopy (src dst : Path).

#[global] Instance io_event_eq_dec : EqDecision io_event.
Proof. solve_decision. Defined.

Record World := mkWorld {
  fs : gmap Path Node;
  (** [os.path.realpath]: the canonical absolute form, or the exception
      [Path.resolve] raises. *)
  realpath : Path → exn + Path;
  (** The successive readings of [datetime.now()]. *)
  clock : nat → datetime;
  ticks : nat;
  io_log : list io_event
}.

(** The attributes of a [CoGSaver] window that the methods read or write. *)
Record CoGSaver := mkCoGSaver {
  settings : gmap str str;
  save_location : option Path;
  save_folder : option Path;
  quick_save_location : option Path;
  saves_list : list Path;
  main_message : list str;
  window_title : str
}.

Definition with_fs (f : FS) (w : World) : World :=
  mkWorld f (realpath w) (clock w) (ticks w) (io_log w).
Definition with_ticks (n : nat) (w : World) : World :=
  mkWorld (fs w) (realpath w) (clock w) n (io_log w).
Definition with_io_log (l : list io_event) (w : World) : World :=
  mkWorld (fs w) (realpath w) (clock w) (ticks w) l.

Definition with_settings (v : gmap str str) (s : CoGSaver) : CoGSaver :=
  mkCoGSaver v (save_location s) (save_folder s) (quick_save_location s)
    (saves_list s) (main_message s) (window_title s).
Definition with_save_location (v : option Path) (s : CoGSaver) : CoGSaver :=
  mkCoGSaver (settings s) v (save_folder s) (quick_save_location s)
    (saves_list s) (main_message s) (window_title s).
Definition with_save_folder (v : option Path) (s : CoGSaver) : CoGSaver :=
  mkCoGSaver (settings s) (save_location s) v (quick_save_location s)
    (saves_list s) (main_message s) (window_title s).
Definition with_quick_save_location (v : option Path) (s : CoGSaver)
    : CoGSaver :=
  mkCoGSaver (settings s) (save_location s) (save_folder s) v
    (saves_list s) (main_message s) (window_title s).
Definition with_saves_list (v : list Path) (s : CoGSaver) : CoGSaver :=
  mkCoGSaver (settings s) (save_location s) (save_folder s)
    (quick_save_location s) v (main_message s) (window_title s).
Definition with_main_message (v : list str) (s : CoGSaver) : CoGSaver :=
  mkCoGSaver (settings s) (save_location s) (save_folder s)
    (quick_save_location s) (saves_list s) v (window_title s).
Definition with_window_title (v : str) (s : CoGSaver) : CoGSaver :=
  mkCoGSaver (settings s) (save_location s) (save_folder s)
    (quick_save_location s) (saves_list s) (main_message s) v.

(** ** The monad of the methods: state and exceptions *)

Inductive outcome (A : Type) :=
  | Returned (a : A)
  | Raised (e : exn).
Arguments Returned {A} a.
Arguments Raised {A} e.

#[global] Instance outcome_eq_dec `{EqDecision A} : EqDecision (outcome A).
Proof. solve_decision. Defined.

Definition M (A : Type) : Type := CoGSaver * World → outcome A * (CoGSaver * World).

#[global] Instance M_ret : MRet M := λ A a s, (Returned a, s).

#[global] Instance M_bind : MBind M := λ A B k m s,
  match m s with
  | (Returned a, s') => k a s'
  | (Raised e, s') => (Raised e, s')
  end.

Definition raise {A} (e : exn) : M A := λ s, (Raised e, s).

(** [try: body  except OSError as e: handler(e)] *)
Definition try_except_OSError {A} (body : M A) (handler : exn → M A) : M A :=
  λ s,
    match body s with
    | (Raised e, s') =>
        if is_OSError (exn_cls e) then handler e s' else (Raised e, s')
    | r => r
    end.

(** [for x in l: body(x)] *)
Fixpoint for_each {A} (l : list A) (body : A → M ()) : M () :=
  match l with
  | [] => mret ()
  | x :: l' => body x;; for_each l' body
  end.

Definition get_self : M CoGSaver := λ s, (Returned s.1, s).
Definition set_self (upd : CoGSaver → CoGSaver) : M () :=
  λ s, (Returned (), (upd s.1, s.2)).

(** An operating-system call: it is logged, then it returns or raises,
    and may change the files. *)
Definition syscall {A} (ev : io_event) (run : FS → exn + A * FS) : M A :=
  λ s,
    let w := with_io_log (io_log s.2 ++ [ev]) s.2 in
    match run (fs w) with
    | inr (a, f) => (Returned a, (s.1, with_fs f w))
    | inl e => (Raised e, (s.1, w))
    end.

Definition datetime_now : M datetime :=
  λ s, (Returned (clock s.2 (ticks s.2)), (s.1, with_ticks (S (ticks s.2)) s.2)).

Definition path_exists (p : Path) : M bool :=
  syscall (IoExists p) (λ f, inr (bool_decide (is_Some (f !! p)), f)).

Definition path_resolve (p : Path) : M Path :=
  λ s,
    let w := with_io_log (io_log s.2 ++ [IoResolve p]) s.2 in
    match realpath w p with
    | inr q => (Returned q, (s.1, w))
    | inl e => (Raised e, (s.1, w))
    end.

Definition path_mkdir (p : Path) : M () :=
  syscall (IoMkdir p) (λ f, sum_map id (pair ()) (mkdir_exist_ok p f)).

Definition path_glob (p : Path) (pat : str) : M (list Path) :=
  syscall (IoGlob p pat) (λ f, inr (glob p pat f, f)).

Definition open_read (p : Path) : M str :=
  syscall (IoRead p) (λ f, sum_map id (λ s, (s, f)) (read_text p f)).

Definition shutil_copy2 (src dst : Path) : M () :=
  syscall (IoCopy src dst) (λ f, sum_map id (pair ()) (copy2 src dst f)).

(** ** Class [CoGSaver] *)

(** [str(x)] for an attribute that holds a path or [None]. *)
Definition str_of (o : option Path) : str :=
  match o with Some p => to_str p | None => py "None" end.

(** [ExtensionChecker.filter()] *)
Definition ExtensionChecker_filter : str :=
  py "CoG Saver Files (" ++ py "*.cogsav" ++ py ")".

Definition msg_no_game_selected : str :=
  py "No game selected! Please select a save file location by" ++ [newline]
  ++ py "    clicking " ++ [dquote] ++ py "Select Game" ++ [dquote]
  ++ py " and choosing a" ++ [newline]
  ++ py "    storePS<gamename>PSstate file!".

Definition msg_invalid_selection : str :=
  [newline; newline]
  ++ py "ERROR: Please select only a 'storePS<gamename>PSstate' file."
  ++ [newline]
  ++ py "This file may be found in:" ++ [newline]
  ++ py "'\Steam\userdata\<yourSteamID#>\<SteamGame#>\remote'" ++ [newline]
  ++ py "The file selected MUST be the one that ends with " ++ [dquote]
  ++ py "PSstate" ++ [dquote] ++ py " only!".

Definition msg_select_game : str :=
  py "ERROR! Please select your game's save file by clicking 'Select Game'".

(** The text of the list item [_append_message] adds at time [t]. *)
Definition message_item (t : datetime) (msg : str) : str :=
  py "[" ++ strftime fmt_message t ++ py "] "
  ++ replace_char newline [space] msg.

Definition _append_message (msg : str) : M () :=
  now ← datetime_now;
  set_self (λ self, with_main_message (main_message self ++ [message_item now msg]) self).

Definition _load_preferences : M () :=
  self ← get_self;
  let save_location_str := default [] (settings self !! py "saveLocation") in
  if truthy save_location_str
  then set_self (with_save_location (Some (parse save_location_str)))
  else mret ().

Definition _generate_saves_list : M () :=
  self ← get_self;
  match save_folder self with
  | Some folder =>
      present ← path_exists folder;
      if present : bool then
        found ← path_glob folder (py "*.cogsav");
        set_self (with_saves_list found);;
        for_each found (λ save_file,
          _append_message (py "Found file: " ++ name save_file));;
        _append_message
          (py "Found " ++ py (pretty (length found)) ++ py " files.")
      else mret ()
  | None => mret ()
  end.

Definition _update_game : M () :=
  self ← get_self;
  usable ← match save_location self with
           | Some loc => path_exists loc
           | None => mret false
           end;
  match save_location self, usable with
  | Some loc, true =>
      try_except_OSError
        (loc ← path_resolve loc;
         set_self (with_save_location (Some loc));;
         let folder := parent loc // py "saves" in
         set_self (with_save_folder (Some folder));;
         path_mkdir folder;;
         _append_message (py "Custom saves directory: " ++ to_str folder);;
         let quick := parent loc // py "quicksave.cogsav" in
         set_self (with_quick_save_location (Some quick));;
         _append_message (py "Quicksave file: " ++ to_str quick);;
         _generate_saves_list)
        (λ e,
         _append_message (py "Error: " ++ exn_str e);;
         self ← get_self;
         _append_message
           (py "Failed to use " ++ str_of (save_location self)
            ++ py " as a base file!"))
  | _, _ => _append_message msg_no_game_selected
  end.

(** [_init_ui] without the widgets: the title, and the look for the icon. *)
Definition _init_ui : M () :=
  set_self (with_window_title (py "CoG Saver"));;
  _ ← path_exists (parse (py "icon.gif"));
  mret ().

(** The object before [__init__] runs its three calls, over the stored
    preferences. *)
Definition fresh (prefs : gmap str str) : CoGSaver :=
  mkCoGSaver prefs None None None [] [] [].

Definition __init__ : M () :=
  _init_ui;; _load_preferences;; _update_game.

(** [getOpenFileName] is the file dialog: from the directory it opens in
    to the path the user picks, empty when the user cancels. *)
Definition _change_game (getOpenFileName : str → str) : M () :=
  self ← get_self;
  let initial_dir :=
    match save_location self with
    | Some loc => to_str (parent loc)
    | None => []
    end in
  let file_path := getOpenFileName initial_dir in
  if truthy file_path then
    let selected_file := parse file_path in
    _append_message (py "Selected " ++ to_str selected_file);;
    if endswith (name selected_file) (py "PSstate") then
      set_self (with_save_location (Some selected_file));;
      set_self (λ self,
        with_settings
          (<[py "saveLocation" := str_of (save_location self)]> (settings self))
          self);;
      _update_game;;
      set_self (with_window_title (py "CoG Saver - " ++ name selected_file))
    else
      set_self (with_save_location None);;
      _append_message msg_invalid_selection
  else mret ().

Definition _quick_save : M () :=
  self ← get_self;
  match save_location self with
  | None => _append_message msg_select_game
  | Some live =>
      try_except_OSError
        (match quick_save_location self with
         | Some quick =>
             shutil_copy2 live quick;;
             _append_message (py "Quicksaved")
         | None => mret ()
         end)
        (λ e,
         _append_message (py "Error: " ++ exn_str e);;
         _append_message (py "Quicksave failed"))
  end.

Definition _quick_load : M () :=
  self ← get_self;
  match save_location self with
  | None => _append_message msg_select_game
  | Some live =>
      try_except_OSError
        (present ← match quick_save_location self with
                   | Some quick => path_exists quick
                   | None => mret false
                   end;
         match quick_save_location self, present with
         | Some quick, true =>
             shutil_copy2 quick live;;
             _append_message (py "Loaded")
         | _, _ => _append_message (py "No quicksave found")
         end)
        (λ e,
         _append_message (py "Error: " ++ exn_str e);;
         _append_message (py "Load failed"))
  end.

(** The two patterns of [_parse_save]: a quoted field name, a colon with
    any white space around it, and the quoted value as group 1. *)
Definition field_re (field : Re.regex) : Re.regex :=
  Re.cat [Re.Chr dquote; field; Re.Chr dquote;
          Re.Star Re.isspace; Re.Chr 58; Re.Star Re.isspace;
          Re.Chr dquote; Re.Group 1 (Re.Plus Re.not_dquote); Re.Chr dquote].

Definition name_re : Re.regex :=
  field_re (Re.Alt (Re.lit (py "name")) (Re.lit (py "firstname"))).

Definition scene_re : Re.regex := field_re (Re.lit (py "sceneName")).

(** [m.group(1)] when the search found a match [m], else [None]. *)
Definition group1 (m : option Re.groups) : option str :=
  (λ g, Re.group g 1) <$> m.

(** [if x:] for a value that is a string or [None]. *)
Definition present (x : option str) : bool :=
  match x with Some s => truthy s | None => false end.

(** The end of [_parse_save]: the parts joined by spaces. *)
Definition suggested (name : option str) (timestamp : str)
    (scene : option str) : str :=
  let parts := [] in
  let parts := if present name then parts ++ [default [] name] else parts in
  let parts := parts ++ [timestamp] in
  let parts := if present scene then parts ++ [default [] scene] else parts in
  join [space] parts.

Definition _parse_save : M str :=
  _append_message (py "Parsing current save...");;
  self ← get_self;
  match save_location self with
  | None =>
      now ← datetime_now;
      mret (strftime fmt_name now)
  | Some live =>
      found ← try_except_OSError
        (content ← open_read live;
         let name_match := Re.search name_re content in
         let scene_match := Re.search scene_re content in
         mret (group1 name_match, group1 scene_match))
        (λ e,
         _append_message (py "Error parsing save: " ++ exn_str e);;
         mret (None, None));
      now ← datetime_now;
      let timestamp := strftime fmt_name now in
      let return_val := suggested found.1 timestamp found.2 in
      _append_message return_val;;
      mret return_val
  end.

(** Lines 283 to 285: the path the save is written to.  The extension is
    added when the chosen path has no suffix; [None] stands for the
    [ValueError] of [with_suffix] on a path with an empty name. *)
Definition target_of (save_path : str) : option Path :=
  let save_file := parse save_path in
  if negb (truthy (suffix save_file))
  then with_suffix save_file (py ".cogsav")
  else Some save_file.

(** [getSaveFileName] is the save dialog: from the path it proposes to
    the path the user confirms, empty when the user cancels. *)
Definition _create_perm_save (getSaveFileName : str → str) : M () :=
  self ← get_self;
  match save_location self with
  | None => _append_message msg_select_game
  | Some live =>
      suggested_name ← _parse_save;
      let save_path :=
        getSaveFileName
          match save_folder self with
          | Some folder => to_str (folder // suggested_name)
          | None => suggested_name
          end in
      if truthy save_path then
        save_file ←
          match target_of save_path with
          | Some p => mret p
          | None =>
              raise (Exn ValueError
                       (to_str (parse save_path) ++ py " has an empty name"))
          end;
        try_except_OSError
          (shutil_copy2 live save_file;;
           _append_message (py "Saved to " ++ to_str save_file))
          (λ e,
           _append_message (py "Error: " ++ exn_str e);;
           _append_message (py "Save failed"))
      else mret ()
  end.

Definition _load_perm_save (getOpenFileName : str → str) : M () :=
  self ← get_self;
  match save_location self with
  | None => _append_message msg_select_game
  | Some live =>
      let save_path := getOpenFileName (from_option to_str [] (save_folder self)) in
      if truthy save_path then
        let save_file := parse save_path in
        try_except_OSError
          (shutil_copy2 save_file live;;
           display_path ←
             match save_folder self with
             | Some folder =>
                 if bool_decide (folder ∈ parents save_file) then
                   match relative_to save_file (parent folder) with
                   | Some rel => mret rel
                   | None =>
                       raise (Exn ValueError
                                (to_str save_file
                                 ++ py " is not in the subpath of "
                                 ++ to_str (parent folder)))
                   end
                 else mret save_file
             | None => mret save_file
             end;
           _append_message (py "Loaded: " ++ to_str display_path))
          (λ e,
           _append_message (py "Error: " ++ exn_str e);;
           _append_message (py "Error loading save"))
      else mret ()
  end.

(** ** Sample sessions *)

Module Sample.

Definition P (s : string) : Path := parse (py s).

(** The bytes of an ASCII text. *)
Definition ascii_bytes (s : str) : list byte :=
  (λ n, default x00 (Byte.of_N n)) <$> s.

Definition quote (s : string) : str := [dquote] ++ py s ++ [dquote].

(** A game directory with a live save, and an archive directory holding
    two archive saves and one other file. *)
Definition live : Path := P "/g/storePSgamePSstate".

Definition live_text : str :=
  py "{" ++ quote "name" ++ py ": " ++ quote "Avery" ++ py ", "
  ++ quote "sceneName" ++ py ": " ++ quote "chapter1" ++ py "}".

Definition files : FS :=
  list_to_map
    [(P "/", Dir); (P "/g", Dir);
     (live, File (ascii_bytes live_text));
     (P "/g/saves", Dir);
     (P "/g/saves/a.cogsav", File [x61]);
     (P "/g/saves/b.cogsav", File [x62]);
     (P "/g/saves/c.txt", File [x63])].

Definition noon (n : nat) : datetime := DateTime 2024 1 2 12 30 n.

Definition world (f : FS) : World := mkWorld f inr noon 0 [].

(** The session once the user has selected [live] in [world files]
    (messages and title left out). *)
Definition session : CoGSaver :=
  mkCoGSaver ∅ (Some live) (Some (P "/g/saves"))
    (Some (P "/g/quicksave.cogsav"))
    [P "/g/saves/b.cogsav"; P "/g/saves/a.cogsav"] [] [].

(** The game directory with a live save of the given bytes and an empty
    archive directory. *)
Definition game (content : list byte) : FS :=
  list_to_map
    [(P "/", Dir); (P "/g", Dir); (live, File content); (P "/g/saves", Dir)].

(** A save in which the field [firstname] comes before the field [name]. *)
Definition bob_text : str :=
  py "{" ++ quote "firstname" ++ py ": " ++ quote "Bob" ++ py ", "
  ++ quote "name" ++ py ": " ++ quote "Alice" ++ py "}".

(** The object with [live] as its live save and nothing derived yet. *)
Definition chosen (loc : Path) : CoGSaver :=
  with_save_location (Some loc) (fresh ∅).

(** A game directory in which [saves] is a regular file, so that the
    archive directory cannot be made. *)
Definition live' : Path := P "/h/storePSgamePSstate".

Definition blocked : FS :=
  list_to_map
    [(P "/", Dir); (P "/h", Dir);
     (live', File [x7b; x7d]);
     (P "/h/saves", File [])].

(** The first game is selected in a new window, with both games on
    disk; then the second game is picked: [second_chosen] is the state in
    which that selection calls [_update_game]. *)
Definition first_selected : CoGSaver * World :=
  (_change_game (λ _, to_str live) (fresh ∅, world (files ∪ blocked))).2.

Definition second_chosen : CoGSaver * World :=
  ((_append_message (py "Selected " ++ to_str live');;
    set_self (with_save_location (Some live'));;
    set_self (λ self,
      with_settings
        (<[py "saveLocation" := str_of (save_location self)]> (settings self))
        self)) first_selected).2.

(** A session whose live save file is gone. *)
Definition gone : Path := P "/g/gone/storePSgamePSstate".

Definition lost : CoGSaver :=
  mkCoGSaver ∅ (Some gone) (Some (P "/g/saves"))
    (Some (P "/g/quicksave.cogsav")) [] [] [].

(** The game directory with a quick save in it. *)
Definition saved : FS := <[P "/g/quicksave.cogsav" := File [x71]]> files.

(** Preferences that name a file which does not exist. *)
Definition stale_prefs : gmap str str :=
  {[ py "saveLocation" := py "/g/gone/storePSgamePSstate" ]}.

(** The name suggested for the live save of [files], and the path it
    gives in the archive directory. *)
Definition avery : str := py "Avery 24.01.02 12.30 chapter1".
Definition avery_path : Path := P "/g/saves/Avery 24.01.02 12.30 chapter1".

End Sample.

(** ** The vocabulary of the statements *)

(** What a transfer does when no live save is selected: it returns, the
    one message is added, and neither the files nor the record of
    file-system calls nor the session paths change. *)
Definition reports_no_live_save (self : CoGSaver) (w : World)
    (r : outcome () * (CoGSaver * World)) : Prop :=
  r.1 = Returned ()
  ∧ main_message r.2.1
    = main_message self ++ [message_item (clock w (ticks w)) msg_select_game]
  ∧ fs r.2.2 = fs w
  ∧ io_log r.2.2 = io_log w
  ∧ save_location r.2.1 = None
  ∧ save_folder r.2.1 = save_folder self
  ∧ quick_save_location r.2.1 = quick_save_location self
  ∧ saves_list r.2.1 = saves_list self.

(** The text of a field: the quoted name, a colon with white space
    around it, the quoted value, and whatever follows. *)
Definition field_text (fname ws1 ws2 v rest : str) : str :=
  dquote :: fname ++ dquote :: ws1 ++ 58 :: ws2 ++ dquote :: v
    ++ dquote :: rest.

(** What makes a pattern [field] accept the name [fname]. *)
Definition accepts (field : Re.regex) (fname : str) : Prop :=
  ∀ A rest g (k : str → Re.groups → option A) m,
    k rest g = Some m → Re.match_at field (fname ++ rest) g k = Some m.

(** The time stamp of the suggested name: the second reading of the clock
    in [_parse_save], the first one being that of its opening message. *)
Definition name_time (w : World) : str :=
  strftime fmt_name (clock w (S (ticks w))).


(** A relation between the state before and the state after that every
    run of [m] keeps, whether it returns or raises. *)
Definition always {A} (R : relation (CoGSaver * World)) (m : M A) : Prop :=
  ∀ s, R s (m s).2.

(** The logs only grow: the messages and the record of calls are
    extended, the clock is read forward and is the same clock, and the
    oracle of canonical paths is the same. *)
Definition only_appends (s s' : CoGSaver * World) : Prop :=
  main_message s.1 `prefix_of` main_message s'.1
  ∧ io_log s.2 `prefix_of` io_log s'.2
  ∧ (ticks s.2 ≤ ticks s'.2)%nat
  ∧ clock s'.2 = clock s.2
  ∧ realpath s'.2 = realpath s.2.

(** The session is left alone: the three paths, the listing, the stored
    preferences and the window title are what they were. *)
Definition same_session (s s' : CoGSaver * World) : Prop :=
  save_location s'.1 = save_location s.1
  ∧ save_folder s'.1 = save_folder s.1
  ∧ quick_save_location s'.1 = quick_save_location s.1
  ∧ saves_list s'.1 = saves_list s.1
  ∧ settings s'.1 = settings s.1
  ∧ window_title s'.1 = window_title s.1.

(** The files are what they were. *)
Definition same_files (s s' : CoGSaver * World) : Prop := fs s'.2 = fs s.2.

(** Everything that was in the file system is still there, unchanged. *)
Definition files_kept (s s' : CoGSaver * World) : Prop := fs s.2 ⊆ fs s'.2.

(** The files are what they were, or what they were with one directory
    more, made where nothing was: the archive directory of the session
    afterwards. *)
Definition makes_archive_directory_at_most (s s' : CoGSaver * World) : Prop :=
  fs s'.2 = fs s.2
  ∨ ∃ folder, save_folder s'.1 = Some folder
      ∧ fs s.2 !! folder = None
      ∧ fs s'.2 = <[folder := Dir]> (fs s.2).

(** The files and the archive directory of the session are what they
    were. *)
Definition same_files_and_folder (s s' : CoGSaver * World) : Prop :=
  fs s'.2 = fs s.2 ∧ save_folder s'.1 = save_folder s.1.

(** Nothing is removed: a path that existed exists, and a directory is
    still a directory. *)
Definition nothing_removed (f f' : FS) : Prop :=
  ∀ p, (is_Some (f !! p) → is_Some (f' !! p))
       ∧ (f !! p = Some Dir → f' !! p = Some Dir).

Definition never_removes (s s' : CoGSaver * World) : Prop :=
  nothing_removed (fs s.2) (fs s'.2).

(** Every exception that leaves [m] satisfies [P]. *)
Definition raises_only {A} (P : exn → Prop) (m : M A) : Prop :=
  ∀ s, match (m s).1 with Returned _ => True | Raised e => P e end.

(** No exception leaves [m]. *)
Definition never_raises {A} (m : M A) : Prop := raises_only (λ _, False) m.

(** The paths [parse] produces: a root of at most two slashes, and
    components that are not empty, not the single dot, and hold no slash. *)
Definition parsed (p : Path) : Prop :=
  root p ∈ [[]; [slash]; [slash; slash]]
  ∧ Forall (λ c, c ≠ [] ∧ c ≠ [dot] ∧ slash ∉ c) (tail p).

(** Every item of the message list is a single line. *)
Definition single_lines (self : CoGSaver) : Prop :=
  Forall (λ item, newline ∉ item) (main_message self).

Definition keeps_single_lines (s s' : CoGSaver * World) : Prop :=
  single_lines s.1 → single_lines s'.1.

(** The path a load shows: the chosen file, or, when the archive
    directory is one of its ancestors, the file relative to the parent of
    the archive directory. *)
Definition shown_as (self : CoGSaver) (save_file shown : Path) : Prop :=
  match save_folder self with
  | Some folder =>
      if bool_decide (folder ∈ parents save_file)
      then relative_to save_file (parent folder) = Some shown
      else shown = save_file
  | None => shown = save_file
  end.

(** * Properties *)

(** Unfolds the monad so that a method applied to a state computes. *)
Ltac run :=
  repeat (progress (unfold mbind, M_bind, mret, M_ret, get_self, set_self,
                      try_except_OSError, datetime_now, syscall, raise;
                    cbn [fst snd])).

(** Reads the fields of an updated record, and nothing else. *)
Ltac fields :=
  cbn [fst snd
       with_fs with_ticks with_io_log with_settings with_save_location
       with_save_folder with_quick_save_location with_saves_list
       with_main_message with_window_title
       fs realpath clock ticks io_log
       settings save_location save_folder quick_save_location saves_list
       main_message window_title].

(** Unfolds the record updates too. *)
Ltac fields' :=
  unfold with_fs, with_ticks, with_io_log, with_settings, with_save_location,
    with_save_folder, with_quick_save_location, with_saves_list,
    with_main_message, with_window_title;
  fields.

(** Settles a closed, decidable statement by evaluation. *)
Ltac evaluate := apply (bool_decide_unpack _); vm_compute; exact I.

(** Every error of the file system is an [OSError]. *)
Lemma lookup_error_cases (f : FS) (p : Path) :
  lookup_error f p = NotADirectoryError ∨ lookup_error f p = FileNotFoundError.
Proof. unfold lookup_error. destruct (existsb _ _); auto. Qed.

Lemma os_error_lookup_is_OSError (f : FS) (p : Path) :
  is_OSError (exn_cls (os_error (lookup_error f p) p)) = true.
Proof. by destruct (lookup_error_cases f p) as [-> | ->]. Qed.

Lemma append_message_run msg self w :
  _append_message msg (self, w) =
  (Returned (),
   (with_main_message
      (main_message self ++ [message_item (clock w (ticks w)) msg]) self,
    with_ticks (S (ticks w)) w)).
Proof. reflexivity. Qed.

(** ** Transfers without a live save *)

Lemma refusal_reports self w :
  save_location self = None →
  reports_no_live_save self w (_append_message msg_select_game (self, w)).
Proof. intros H. rewrite append_message_run. by repeat split. Qed.

(** C3. When no live save is selected, each of the four transfers (quick
    save, quick load, create archive save, load archive save) reports the
    no-live-save error and makes no call to the file system, whatever the
    file dialogs would answer. *)
Theorem C3_transfers_need_live_save
    (self : CoGSaver) (w : World) (save_dialog open_dialog : str → str) :
  save_location self = None →
  reports_no_live_save self w (_quick_save (self, w))
  ∧ reports_no_live_save self w (_quick_load (self, w))
  ∧ reports_no_live_save self w (_create_perm_save save_dialog (self, w))
  ∧ reports_no_live_save self w (_load_perm_save open_dialog (self, w)).
Proof.
  intros H. pose proof (refusal_reports self w H) as R.
  assert (E1 : _quick_save (self, w) = _append_message msg_select_game (self, w))
    by (unfold _quick_save; run; by rewrite H).
  assert (E2 : _quick_load (self, w) = _append_message msg_select_game (self, w))
    by (unfold _quick_load; run; by rewrite H).
  assert (E3 : _create_perm_save save_dialog (self, w)
               = _append_message msg_select_game (self, w))
    by (unfold _create_perm_save; run; by rewrite H).
  assert (E4 : _load_perm_save open_dialog (self, w)
               = _append_message msg_select_game (self, w))
    by (unfold _load_perm_save; run; by rewrite H).
  rewrite E1, E2, E3, E4. tauto.
Qed.

Import Sample.

Lemma C3_witness :
  save_location (fresh ∅) = None
  ∧ reports_no_live_save (fresh ∅) (world files)
      (_create_perm_save id (fresh ∅, world files)).
Proof.
  split; [reflexivity|].
  apply (C3_transfers_need_live_save (fresh ∅) (world files) id id).
  reflexivity.
Defined.

(** ** Quick load without a quick save *)

(** C4. With a live save selected and no quick-save file (the quick-save
    path is unset, or nothing exists at it), quick load returns normally
    with the message that no quick save was found, copies nothing, and
    leaves every file, the live save among them, as it was. *)
Theorem C4_quick_load_without_quick_save
    (self : CoGSaver) (w : World) (live : Path) :
  save_location self = Some live →
  (∀ quick, quick_save_location self = Some quick → fs w !! quick = None) →
  let r := _quick_load (self, w) in
  r.1 = Returned ()
  ∧ main_message r.2.1
    = main_message self
      ++ [message_item (clock w (ticks w)) (py "No quicksave found")]
  ∧ (∀ src dst, IoCopy src dst ∈ io_log r.2.2 → IoCopy src dst ∈ io_log w)
  ∧ fs r.2.2 = fs w
  ∧ fs r.2.2 !! live = fs w !! live.
Proof.
  intros Hlive Hquick. unfold _quick_load. run. rewrite Hlive.
  destruct (quick_save_location self) as [quick|] eqn:Eq.
  - unfold path_exists. run. cbn. rewrite (Hquick quick eq_refl).
    rewrite bool_decide_eq_false_2 by (by intros [? ?]).
    cbn. repeat split; try done.
    intros src dst [Hin|Hin%list_elem_of_singleton]%elem_of_app; done.
  - cbn. repeat split; done.
Qed.

Lemma C4_witness :
  save_location session = Some live
  ∧ (_quick_load (session, world files)).1 = Returned ()
  ∧ fs (_quick_load (session, world files)).2.2 !! live = fs (world files) !! live.
Proof.
  split; [reflexivity|].
  destruct (C4_quick_load_without_quick_save session (world files) live)
    as (H1 & _ & _ & _ & H5).
  - reflexivity.
  - intros quick H. injection H as <-. by vm_compute.
  - (split; [exact H1 | exact H5]).
Defined.

(** ** Selecting the live save *)

(** C1, as the code has it.  When the user picks a file whose name does not
    end with PSstate, the live save path is cleared, whatever it was; the
    archive directory, the quick-save path, the archive listing, the
    stored preference and the window title stay as they were; two messages
    are added (the selection, then the error); no call to the file system
    is made. *)
Theorem C1_invalid_selection_clears_live_save
    (self : CoGSaver) (w : World) (getOpenFileName : str → str) :
  let file_path :=
    getOpenFileName
      (from_option (λ loc, to_str (parent loc)) [] (save_location self)) in
  file_path ≠ [] →
  ¬ py "PSstate" `suffix_of` name (parse file_path) →
  let r := _change_game getOpenFileName (self, w) in
  r.1 = Returned ()
  ∧ save_location r.2.1 = None
  ∧ save_folder r.2.1 = save_folder self
  ∧ quick_save_location r.2.1 = quick_save_location self
  ∧ saves_list r.2.1 = saves_list self
  ∧ settings r.2.1 = settings self
  ∧ window_title r.2.1 = window_title self
  ∧ main_message r.2.1
    = main_message self
      ++ [message_item (clock w (ticks w))
            (py "Selected " ++ to_str (parse file_path));
          message_item (clock w (S (ticks w))) msg_invalid_selection]
  ∧ fs r.2.2 = fs w
  ∧ io_log r.2.2 = io_log w.
Proof.
  intros file_path Hne Hsuf r. subst r. unfold _change_game.
  run.
  replace (getOpenFileName _) with file_path
    by (subst file_path; by destruct (save_location self)).
  destruct file_path as [|c rest] eqn:E; [done|]. cbn [truthy].
  unfold endswith. rewrite bool_decide_eq_false_2 by done.
  rewrite !append_message_run. fields.
  rewrite <- app_assoc. by repeat split.
Qed.

Lemma C1_witness :
  let r := _change_game (λ _, py "/g/notes.txt") (session, world files) in
  save_location r.2.1 = None
  ∧ save_folder r.2.1 = save_folder session
  ∧ quick_save_location r.2.1 = quick_save_location session
  ∧ io_log r.2.2 = [].
Proof.
  destruct (C1_invalid_selection_clears_live_save session (world files)
              (λ _, py "/g/notes.txt"))
    as (_ & H2 & H3 & H4 & _ & _ & _ & _ & _ & H10).
  - by vm_compute.
  - intros H%(bool_decide_pack _). by vm_compute in H.
  - cbv zeta. by rewrite H2, H3, H4, H10.
Defined.

(** C1, against the claim as stated.  In the sample session the live save
    is selected; the user then picks [/g/notes.txt], whose name does not
    end with PSstate.  The live save path does not stay what it was: it is
    unset afterwards. *)
Lemma C1_counterexample :
  let r := _change_game (λ _, py "/g/notes.txt") (session, world files) in
  endswith (name (parse (py "/g/notes.txt"))) (py "PSstate") = false
  ∧ save_location session = Some live
  ∧ save_location r.2.1 = None
  ∧ save_location r.2.1 ≠ save_location session.
Proof. by vm_compute. Qed.

(** ** Quick save, then quick load *)

Lemma copy2_target (src dst : Path) (f f' : FS) :
  copy2 src dst f = inr f' →
  ∃ b target, f !! src = Some (File b) ∧ src ≠ target
    ∧ target = (if is_dir f dst then child dst (name src) else dst)
    ∧ is_dir f target = false
    ∧ f' = <[target := File b]> f.
Proof.
  unfold copy2. set (target := if is_dir f dst then _ else _).
  case_bool_decide as Hsame; [done|].
  destruct (f !! src) as [[b|]|] eqn:Hsrc; try done.
  destruct (is_dir f target) eqn:Hdir; [done|].
  destruct (f !! parent target) as [[|]|]; try done.
  intros [= <-]. exists b, target. repeat split; try done.
  intros Heq. apply Hsame. split; [exact Heq|eauto].
Qed.

(** C5. With the live save and the quick-save path set, when both copies
    succeed, both calls report success, the quick load copies from the
    quick-save path to the live save path, and the live save file holds
    the bytes [b] it held before the quick save.  The quick load runs on
    the state the quick save left, with the live save file rewritten in
    between to any bytes [b'], as the game does when play goes on; with
    [b' = b] nothing has touched the files between the two calls. *)
Theorem C5_quick_save_then_quick_load
    (self : CoGSaver) (w : World) (live quick : Path) (b b' : list byte)
    (f1 f2 : FS) :
  save_location self = Some live →
  quick_save_location self = Some quick →
  fs w !! live = Some (File b) →
  copy2 live quick (fs w) = inr f1 →
  copy2 quick live (<[live := File b']> f1) = inr f2 →
  let r1 := _quick_save (self, w) in
  let played := (r1.2.1, with_fs (<[live := File b']> (fs r1.2.2)) r1.2.2) in
  let r2 := _quick_load played in
  r1.1 = Returned () ∧ fs r1.2.2 = f1
  ∧ r2.1 = Returned () ∧ fs r2.2.2 = f2
  ∧ last (main_message r1.2.1)
    = Some (message_item (clock w (ticks w)) (py "Quicksaved"))
  ∧ last (main_message r2.2.1)
    = Some (message_item (clock w (S (ticks w))) (py "Loaded"))
  ∧ fs r2.2.2 !! live = Some (File b)
  ∧ io_log r2.2.2
    = io_log w ++ [IoCopy live quick; IoExists quick; IoCopy quick live]
  ∧ (b' = b → <[live := File b']> f1 = f1).
Proof.
  intros Hlive Hquick Hb Hc1 Hc2 r1 played r2.
  assert (E1 : r1 = (Returned (),
            (with_main_message (main_message self ++
               [message_item (clock w (ticks w)) (py "Quicksaved")]) self,
             with_ticks (S (ticks w))
               (with_fs f1 (with_io_log (io_log w ++ [IoCopy live quick]) w))))).
  { subst r1. unfold _quick_save. run. rewrite Hlive, Hquick.
    unfold shutil_copy2. run. fields. by rewrite Hc1. }
  destruct (copy2_target _ _ _ _ Hc1) as (b1 & t1 & Hb1 & Hne1 & Et1 & Hd1 & ->).
  destruct (copy2_target _ _ _ _ Hc2) as (b2 & t2 & Hb2 & Hne2 & Et2 & Hd2 & ->).
  set (f1 := <[t1:=File b1]> (fs w)) in *.
  assert (Hq : is_Some (<[live:=File b']> f1 !! quick)).
  { rewrite Hb2. eauto. }
  assert (E2 : r2 = (Returned (),
            (with_main_message (main_message played.1 ++
               [message_item (clock w (S (ticks w))) (py "Loaded")]) played.1,
             with_ticks (S (S (ticks w)))
               (with_fs (<[t2:=File b2]> (<[live:=File b']> f1))
                  (with_io_log
                     (io_log played.2 ++ [IoExists quick; IoCopy quick live])
                     played.2))))).
  { subst r2 played. rewrite E1. unfold _quick_load. run. fields.
    rewrite Hlive, Hquick. unfold path_exists, shutil_copy2. run. fields'.
    rewrite bool_decide_eq_true_2 by done. fields'.
    rewrite Hc2. cbn [sum_map]. fields'. by rewrite <- app_assoc. }
  rewrite Hb in Hb1. injection Hb1 as <-.
  assert (Ht2 : t2 = live).
  { rewrite Et2. unfold is_dir. by rewrite lookup_insert_eq. }
  assert (Hql : quick ≠ live) by congruence.
  rewrite lookup_insert_ne in Hb2 by done.
  assert (Hb2' : b2 = b).
  { destruct (decide (t1 = quick)) as [Heq|Hne].
    - subst f1. rewrite <- Heq, lookup_insert_eq in Hb2. by injection Hb2.
    - (* the copy went into the directory [quick]; then [quick] is not a file *)
      exfalso. subst f1. rewrite lookup_insert_ne in Hb2 by done.
      rewrite Et1 in Hne. unfold is_dir in Hne. by rewrite Hb2 in Hne. }
  rewrite E2. subst played. rewrite E1. fields'. rewrite !last_snoc.
  split_and!; try done.
  - by rewrite Ht2, lookup_insert_eq, Hb2'.
  - by rewrite <- app_assoc.
  - intros ->. apply insert_id. subst f1.
    destruct (decide (t1 = live)) as [->|Hne].
    + by rewrite lookup_insert_eq.
    + by rewrite lookup_insert_ne.
Qed.

Lemma C5_witness :
  let quick := P "/g/quicksave.cogsav" in
  let r1 := _quick_save (session, world files) in
  let played := (r1.2.1, with_fs (<[live := File []]> (fs r1.2.2)) r1.2.2) in
  let r2 := _quick_load played in
  copy2 live quick files = inr (<[quick := File (ascii_bytes live_text)]> files)
  ∧ fs played.2 !! live = Some (File [])
  ∧ fs r2.2.2 !! live = Some (File (ascii_bytes live_text)).
Proof.
  intros quick r1 played r2. split; [evaluate|]. split; [evaluate|].
  destruct (C5_quick_save_then_quick_load session (world files) live quick
           (ascii_bytes live_text) []
           (<[quick := File (ascii_bytes live_text)]> files)
           (<[live := File (ascii_bytes live_text)]>
              (<[live := File []]>
                 (<[quick := File (ascii_bytes live_text)]> files))))
    as (_ & _ & _ & _ & _ & _ & H & _).
  1-5: evaluate.
  exact H.
Defined.

(** ** Deriving the archive directory and the quick-save path *)

Lemma for_each_messages {A} (l : list A) (text : A → str) self w :
  for_each l (λ x, _append_message (text x)) (self, w)
  = (Returned (),
     (with_main_message
        (main_message self
         ++ imap (λ i x, message_item (clock w (i + ticks w)) (text x)) l) self,
      with_ticks (length l + ticks w) w)).
Proof.
  revert self w. induction l as [|x l IH]; intros self w.
  - cbn. rewrite app_nil_r. by destruct self, w.
  - cbn [for_each]. run. rewrite append_message_run, IH. fields'.
    rewrite <- app_assoc. cbn [app imap length].
    replace (length l + S (ticks w))%nat with (S (length l) + ticks w)%nat by lia.
    do 5 f_equal. apply imap_ext. intros i y _. unfold compose. do 2 f_equal. lia.
Qed.

(** The listing step: it returns; only the listing, the messages, the
    clock and the record of calls change. *)
Lemma generate_saves_list_run self w :
  ∃ items n calls,
    _generate_saves_list (self, w)
    = (Returned (),
       (with_main_message (main_message self ++ items)
          (with_saves_list
             (match save_folder self with
              | Some folder =>
                  if bool_decide (is_Some (fs w !! folder))
                  then glob folder (py "*.cogsav") (fs w)
                  else saves_list self
              | None => saves_list self
              end) self),
        with_ticks (n + ticks w) (with_io_log (io_log w ++ calls) w))).
Proof.
  unfold _generate_saves_list. run.
  destruct (save_folder self) as [folder|] eqn:Ef.
  - unfold path_exists, path_glob. run. fields'.
    case_bool_decide as Hex; fields'.
    + rewrite for_each_messages, append_message_run. fields'.
      rewrite <- !app_assoc. cbn [app].
      eexists _, (S (length (glob folder (py "*.cogsav") (fs w)))), _.
      reflexivity.
    + exists [], 0%nat, [IoExists folder]. rewrite app_nil_r.
      destruct self. reflexivity.
  - exists [], 0%nat, []. rewrite !app_nil_r.
    destruct self, w. reflexivity.
Qed.

Lemma mkdir_exist_ok_inr (p : Path) (f : FS) :
  is_dir f p = true ∨ (f !! p = None ∧ is_dir f (parent p) = true) →
  ∃ f', mkdir_exist_ok p f = inr f' ∧ is_dir f' p = true.
Proof.
  unfold mkdir_exist_ok, os_mkdir, is_dir. intros [H|[H1 H2]].
  - destruct (f !! p) as [[|]|] eqn:E; try done. exists f. by rewrite E.
  - rewrite H1. destruct (f !! parent p) as [[|]|]; try done.
    eexists. split; [done|]. by rewrite lookup_insert_eq.
Qed.

Lemma mkdir_exist_ok_inl (p : Path) (f : FS) (e : exn) :
  mkdir_exist_ok p f = inl e → is_OSError (exn_cls e) = true.
Proof.
  unfold mkdir_exist_ok.
  destruct (os_mkdir p f) as [e'|] eqn:E; [|done].
  destruct (is_dir f p); [done|]. intros [= <-]. revert E. unfold os_mkdir.
  destruct (f !! p); [intros [= <-]; reflexivity|].
  destruct (f !! parent p) as [[|]|]; intros ?; simplify_eq;
    first [reflexivity | apply os_error_lookup_is_OSError].
Qed.

Lemma joinpath_simple (p : Path) (key : string) :
  parse (py key) = mkPath [] [py key] → p // py key = child p (py key).
Proof. unfold joinpath, child. by intros ->. Qed.

(** C2, as the code has it.  For a live save path that exists and that
    [resolve] turns into the canonical path [canon], the update sets the
    live save path to [canon] and the archive directory to the entry
    [saves] of the parent of [canon]; and when that directory is there
    already or can be made (nothing is at its path and its parent is a
    directory), the update returns, the directory exists afterwards, and
    the quick-save path is the entry [quicksave.cogsav] of the parent of
    [canon]. *)
Theorem C2_derived_paths (self : CoGSaver) (w : World) (loc canon : Path) :
  save_location self = Some loc →
  is_Some (fs w !! loc) →
  realpath w loc = inr canon →
  let folder := parent canon // py "saves" in
  let quick := parent canon // py "quicksave.cogsav" in
  let r := _update_game (self, w) in
  folder = child (parent canon) (py "saves")
  ∧ quick = child (parent canon) (py "quicksave.cogsav")
  ∧ save_location r.2.1 = Some canon
  ∧ save_folder r.2.1 = Some folder
  ∧ (is_dir (fs w) folder = true
     ∨ (fs w !! folder = None ∧ is_dir (fs w) (parent folder) = true) →
     r.1 = Returned ()
     ∧ quick_save_location r.2.1 = Some quick
     ∧ is_dir (fs r.2.2) folder = true).
Proof.
  intros Hloc Hex Hcanon folder quick r.
  split; [by apply joinpath_simple|]. split; [by apply joinpath_simple|].
  subst r. unfold _update_game. run. rewrite Hloc.
  unfold path_exists. run. fields'. rewrite bool_decide_eq_true_2 by done.
  unfold path_resolve. run. fields'. rewrite Hcanon. fields'.
  fold folder. fold quick.
  unfold path_mkdir. run. fields'.
  destruct (mkdir_exist_ok folder (fs w)) as [e|f'] eqn:Emk; cbn [sum_map].
  - (* the directory cannot be made: the handler runs *)
    pose proof (mkdir_exist_ok_inl _ _ _ Emk) as Hos.
    unfold id. rewrite Hos. rewrite !append_message_run. fields'.
    split; [done|]. split; [done|].
    intros Hok. destruct (mkdir_exist_ok_inr folder (fs w) Hok) as (? & E & _).
    by rewrite E in Emk.
  - fields'. rewrite !append_message_run. fields'.
    match goal with |- context [_generate_saves_list (?s, ?w')] =>
      destruct (generate_saves_list_run s w') as (items & n & calls & E)
    end.
    rewrite E. fields'. split; [done|]. split; [done|].
    intros Hok. destruct (mkdir_exist_ok_inr folder (fs w) Hok) as (? & E' & Hd).
    rewrite E' in Emk. injection Emk as <-. by repeat split.
Qed.

Lemma C2_witness :
  let r := _update_game (chosen live, world files) in
  is_Some (files !! live)
  ∧ save_folder r.2.1 = Some (P "/g/saves")
  ∧ quick_save_location r.2.1 = Some (P "/g/quicksave.cogsav").
Proof.
  intros r. split; [evaluate|].
  destruct (C2_derived_paths (chosen live) (world files) live live)
    as (_ & _ & _ & H4 & H5); [reflexivity|evaluate|reflexivity|].
  destruct H5 as (_ & H6 & _); [left; evaluate|].
  subst r. split; [rewrite H4|rewrite H6]; evaluate.
Defined.

(** C2, against the claim as stated.  Both paths below are canonical
    already, so they can be canonicalized.  The first does not exist: no
    archive directory and no quick-save path are derived from it.  The
    second exists, but [saves] next to it is a regular file: the archive
    directory is derived, the quick-save path is not. *)
Lemma C2_counterexample :
  let gone := P "/g/gone/storePSgamePSstate" in
  let r := _update_game (chosen gone, world files) in
  let r' := _update_game (chosen live', world blocked) in
  (realpath (world files) gone = inr gone
   ∧ save_folder r.2.1 = None
   ∧ quick_save_location r.2.1 = None)
  ∧ (realpath (world blocked) live' = inr live'
     ∧ is_Some (blocked !! live')
     ∧ save_folder r'.2.1 = Some (parent live' // py "saves")
     ∧ quick_save_location r'.2.1 = None
     ∧ quick_save_location r'.2.1
       ≠ Some (parent live' // py "quicksave.cogsav")).
Proof. intros gone r r'. evaluate. Qed.

(** ** The archive listing *)







Lemma mkdir_exist_ok_inr_inv (p : Path) (f f' : FS) :
  mkdir_exist_ok p f = inr f' →
  (f' = f ∧ is_dir f p = true) ∨ (f !! p = None ∧ f' = <[p := Dir]> f).
Proof.
  unfold mkdir_exist_ok. destruct (os_mkdir p f) as [e|f''] eqn:E.
  - destruct (is_dir f p) eqn:Hd; intros ?; simplify_eq. by left.
  - intros ?. simplify_eq. right. revert E. unfold os_mkdir.
    destruct (f !! p); [done|].
    destruct (f !! parent p) as [[|]|]; intros ?; by simplify_eq.
Qed.



(** The stale listing is reachable through the dialogs: the user selects
    the first game, then the second one, whose archive directory cannot be
    made.  The listing still shows the saves of the first game, next to the
    archive directory of the second. *)
Lemma stale_listing_after_failed_update :
  let s1 := (_change_game (λ _, to_str live) (fresh ∅, world (files ∪ blocked))).2 in
  let s2 := (_change_game (λ _, to_str live') s1).2 in
  save_folder s2.1 = Some (P "/h/saves")
  ∧ saves_list s2.1 = [P "/g/saves/b.cogsav"; P "/g/saves/a.cogsav"]
  ∧ quick_save_location s2.1 = Some (P "/g/quicksave.cogsav").
Proof. intros s1 s2. evaluate. Qed.

(** The second selection is the update run in [second_chosen], then the
    new title: the session it leaves has the archive directory and the
    listing that the update left. *)
Lemma second_selection_is_update :
  save_folder (_change_game (λ _, to_str live') first_selected).2.1
  = save_folder (_update_game (second_chosen.1, second_chosen.2)).2.1
  ∧ saves_list (_change_game (λ _, to_str live') first_selected).2.1
    = saves_list (_update_game (second_chosen.1, second_chosen.2)).2.1
  ∧ fs (_change_game (λ _, to_str live') first_selected).2.2
    = fs (_update_game (second_chosen.1, second_chosen.2)).2.2
  ∧ is_dir (fs (_change_game (λ _, to_str live') first_selected).2.2)
      (P "/h/saves") = false.
Proof. evaluate. Qed.

(** ** Matching the fields of a save *)

Section Matching.
Import Re.

(** A greedy repetition takes the whole run when the pattern goes on
    right after it. *)
Lemma repeat_class_greedy {A} (cls : N → bool) (run rest : str)
    (k : str → option A) (m : A) :
  Forall (λ c, cls c = true) run →
  (head rest ≫= (λ c, if cls c then Some c else None)) = None →
  k rest = Some m →
  repeat_class cls (run ++ rest) k = Some m.
Proof.
  intros Hrun Hstop Hk. induction Hrun as [|c run Hc _ IH]; cbn [app].
  - destruct rest as [|c rest]; [done|]. cbn in Hstop. cbn [repeat_class].
    by destruct (cls c).
  - cbn [repeat_class]. by rewrite Hc, IH.
Qed.

Lemma match_at_lit {A} (s rest : str) (g : groups)
    (k : str → groups → option A) :
  match_at (lit s) (s ++ rest) g k = k rest g.
Proof.
  revert g k. induction s as [|c s IH]; intros g k; [done|].
  unfold lit in *. cbn [fmap list_fmap cat foldr match_at app].
  by rewrite N.eqb_refl, IH.
Qed.

Lemma accepts_lit (s : str) : accepts (lit s) s.
Proof. intros A rest g k m Hk. by rewrite match_at_lit. Qed.

Lemma accepts_name_or_firstname (fname : str) :
  fname ∈ [py "name"; py "firstname"] →
  accepts (Alt (lit (py "name")) (lit (py "firstname"))) fname.
Proof.
  intros Hin A rest g k m Hk. cbn [match_at].
  apply elem_of_cons in Hin as [->|Hin].
  - by rewrite match_at_lit, Hk.
  - apply list_elem_of_singleton in Hin as ->.
    replace (match_at (lit (py "name")) (py "firstname" ++ rest) g k)
      with (@None A) by reflexivity.
    by rewrite match_at_lit.
Qed.

(** At the start of a field whose name the pattern accepts, the match
    succeeds and group 1 is the value. *)
Lemma field_re_match (field : regex) (fname ws1 ws2 v rest : str) :
  accepts field fname →
  Forall (λ c, isspace c = true) ws1 →
  Forall (λ c, isspace c = true) ws2 →
  v ≠ [] → dquote ∉ v →
  rmatch (field_re field) (field_text fname ws1 ws2 v rest)
  = Some {[ 1%nat := v ]}.
Proof.
  intros Hacc Hws1 Hws2 Hv Hq. unfold rmatch, field_re, field_text.
  cbn [cat foldr match_at]. rewrite N.eqb_refl.
  apply Hacc. rewrite N.eqb_refl.
  apply repeat_class_greedy; [done|done|]. rewrite N.eqb_refl.
  apply repeat_class_greedy; [done|done|]. rewrite N.eqb_refl.
  destruct v as [|x v]; [done|]. cbn [app].
  apply not_elem_of_cons in Hq as [Hx Hq].
  assert (Hnd : ∀ c, c ≠ dquote → not_dquote c = true).
  { intros c Hc. unfold not_dquote. by destruct (N.eqb_spec c dquote). }
  rewrite Hnd by done.
  apply repeat_class_greedy.
  - apply Forall_forall. intros c Hc. apply Hnd. by intros ->.
  - done.
  - rewrite N.eqb_refl. do 2 f_equal.
    cbn [length]. rewrite length_app. cbn [length].
    replace (S (length v + S (length rest)) - S (length rest))%nat
      with (S (length v)) by lia.
    cbn [take]. by rewrite take_app_length.
Qed.

End Matching.

Section Searching.
Import Re.

Lemma search_here (r : regex) (s : str) (g : groups) :
  rmatch r s = Some g → search r s = Some g.
Proof. intros H. destruct s; cbn [search]; by rewrite H. Qed.

(** [search] returns the match at the first position that has one. *)
Lemma search_leftmost (r : regex) (pre rest : str) (g : groups) :
  (∀ i, (i < length pre)%nat → rmatch r (drop i (pre ++ rest)) = None) →
  rmatch r rest = Some g →
  search r (pre ++ rest) = Some g.
Proof.
  intros Hpre Hrest. induction pre as [|c pre IH]; [by apply search_here|].
  cbn [app search].
  pose proof (Hpre 0%nat ltac:(cbn; lia)) as H0. cbn [drop app] in H0.
  rewrite H0.
  apply IH. intros i Hi. apply (Hpre (S i)). cbn. lia.
Qed.

Lemma search_found (r : regex) (s : str) (g : groups) :
  search r s = Some g → ∃ i, rmatch r (drop i s) = Some g.
Proof.
  induction s as [|c s IH]; cbn [search].
  - destruct (rmatch r []) eqn:E; [|done]. intros [= <-]. by exists 0%nat.
  - destruct (rmatch r (c :: s)) eqn:E.
    + intros [= <-]. by exists 0%nat.
    + intros [i Hi]%IH. by exists (S i).
Qed.

(** A field pattern matches only at a double quote. *)
Lemma field_re_needs_quote (field : regex) (s : str) :
  head s ≠ Some dquote → rmatch (field_re field) s = None.
Proof.
  intros H. unfold rmatch, field_re. cbn [cat foldr match_at].
  destruct s as [|c s]; [done|].
  destruct (N.eqb_spec c dquote) as [->|]; [by destruct H|done].
Qed.

Lemma no_match_before_quote (field : regex) (pre rest : str) (i : nat) :
  dquote ∉ pre → (i < length pre)%nat →
  rmatch (field_re field) (drop i (pre ++ rest)) = None.
Proof.
  intros Hq Hi. apply field_re_needs_quote.
  rewrite drop_app_le by lia.
  destruct (drop i pre) as [|c s] eqn:E.
  - apply drop_nil_inv in E. lia.
  - cbn. intros [= ->]. apply Hq.
    rewrite <- (take_drop i pre), E. apply elem_of_app. right. left.
Qed.
End Searching.

Section Groups.
Import Re.

Lemma repeat_class_inv {A} (cls : N → bool) (s : str) (k : str → option A)
    (m : A) :
  repeat_class cls s k = Some m →
  ∃ s', (length s' ≤ length s)%nat ∧ k s' = Some m.
Proof.
  induction s as [|c s IH]; cbn [repeat_class]; [by exists []|].
  destruct (cls c); [|by exists (c :: s)].
  destruct (repeat_class cls s k) eqn:E.
  - intros [= ->]. destruct (IH eq_refl) as (s' & Hl & Hk).
    exists s'. split; [cbn; lia|done].
  - by exists (c :: s).
Qed.

(** A successful match has called the rest of the pattern, and that call
    gave the result. *)
Lemma match_at_inv {A} (r : regex) (s : str) (g : groups)
    (k : str → groups → option A) (m : A) :
  match_at r s g k = Some m → ∃ s' g', k s' g' = Some m.
Proof.
  revert s g k. induction r as [|c|r1 IH1 r2 IH2|r1 IH1 r2 IH2|cls|cls|n r IH];
    intros s g k; cbn [match_at].
  - eauto.
  - destruct s as [|x s]; [done|]. destruct (N.eqb x c); [eauto|done].
  - intros (s1 & g1 & H)%IH1. by apply IH2 in H.
  - destruct (match_at r1 s g k) eqn:E.
    + intros [= ->]. by apply IH1 in E.
    + apply IH2.
  - intros (s' & _ & H)%repeat_class_inv. eauto.
  - destruct s as [|x s]; [done|]. destruct (cls x); [|done].
    intros (s' & _ & H)%repeat_class_inv. eauto.
  - intros (s' & g' & H)%IH. eauto.
Qed.

(** Group 1 of a field match is never empty. *)
Lemma field_re_group1 (field : regex) (s : str) (g : groups) :
  rmatch (field_re field) s = Some g → truthy (group g 1) = true.
Proof.
  unfold rmatch, field_re. cbn [cat foldr match_at]. intros H.
  destruct s as [|c s]; [done|]. destruct (N.eqb c dquote); [|done].
  apply match_at_inv in H as (s1 & g1 & H).
  destruct s1 as [|c1 s1]; [done|]. destruct (N.eqb c1 dquote); [|done].
  apply repeat_class_inv in H as (s2 & _ & H).
  destruct s2 as [|c2 s2]; [done|]. destruct (N.eqb c2 58); [|done].
  apply repeat_class_inv in H as (s3 & _ & H).
  destruct s3 as [|c3 s3]; [done|]. destruct (N.eqb c3 dquote); [|done].
  destruct s3 as [|x s4]; [done|]. destruct (not_dquote x); [|done].
  apply repeat_class_inv in H as (s5 & Hl & H).
  destruct s5 as [|c5 s5]; [done|]. destruct (N.eqb c5 dquote); [|done].
  injection H as <-. unfold group. rewrite lookup_insert_eq.
  cbn [length] in *. cbn [default].
  replace (length s4 - length s5)%nat
    with (S (length s4 - S (length s5))) by lia.
  reflexivity.
Qed.

Lemma search_field_group1 (field : regex) (s : str) :
  present (group1 (search (field_re field) s))
  = bool_decide (is_Some (search (field_re field) s)).
Proof.
  destruct (search (field_re field) s) as [g|] eqn:E; [|done].
  apply search_found in E as [i Hi]. cbn.
  by rewrite (field_re_group1 _ _ _ Hi).
Qed.

(** The parts of the source, joined: the name when found, the time stamp,
    the scene when found. *)
Lemma suggested_join (field1 field2 : regex) (content timestamp : str) :
  let name := group1 (search (field_re field1) content) in
  let scene := group1 (search (field_re field2) content) in
  suggested name timestamp scene
  = join [space] (option_list name ++ [timestamp] ++ option_list scene).
Proof.
  intros name scene. unfold suggested. subst name scene.
  rewrite !search_field_group1.
  destruct (search (field_re field1) content),
    (search (field_re field2) content); reflexivity.
Qed.

End Groups.

(** ** Deriving the suggested name *)

Lemma parse_save_unset (self : CoGSaver) (w : World) :
  save_location self = None →
  (_parse_save (self, w)).1 = Returned (name_time w).
Proof.
  intros H. unfold _parse_save. run. rewrite append_message_run. fields.
  by rewrite H.
Qed.

Lemma parse_save_readable (self : CoGSaver) (w : World) (live : Path)
    (content : str) :
  save_location self = Some live →
  read_text live (fs w) = inr content →
  (_parse_save (self, w)).1
  = Returned (suggested (group1 (Re.search name_re content)) (name_time w)
                (group1 (Re.search scene_re content))).
Proof.
  intros Hlive Hread. unfold _parse_save. run.
  rewrite append_message_run. fields. rewrite Hlive.
  unfold open_read. run. fields'. rewrite Hread. cbn [sum_map].
  fields'. rewrite append_message_run. reflexivity.
Qed.

(** A read that fails with an [OSError] is swallowed: a message tells
    it, and the time stamp alone is returned. *)
Lemma parse_save_read_error (self : CoGSaver) (w : World) (live : Path)
    (e : exn) :
  save_location self = Some live →
  read_text live (fs w) = inl e →
  is_OSError (exn_cls e) = true →
  let r := _parse_save (self, w) in
  r.1 = Returned (strftime fmt_name (clock w (S (S (ticks w)))))
  ∧ message_item (clock w (S (ticks w)))
      (py "Error parsing save: " ++ exn_str e) ∈ main_message r.2.1.
Proof.
  intros Hlive Hread Hos. unfold _parse_save. run.
  rewrite append_message_run. fields. rewrite Hlive.
  unfold open_read. run. fields'. rewrite Hread. cbn [sum_map]. unfold id.
  rewrite Hos. rewrite !append_message_run. fields'.
  split; [reflexivity|]. rewrite !elem_of_app, !list_elem_of_singleton. tauto.
Qed.

(** A read that fails with another exception is not: the exception leaves
    [_parse_save], and [_create_perm_save] with it. *)
Lemma parse_save_raises (self : CoGSaver) (w : World) (live : Path)
    (e : exn) (save_dialog : str → str) :
  save_location self = Some live →
  read_text live (fs w) = inl e →
  is_OSError (exn_cls e) = false →
  (_parse_save (self, w)).1 = Raised e
  ∧ (_create_perm_save save_dialog (self, w)).1 = Raised e.
Proof.
  intros Hlive Hread Hos.
  assert (E : ∃ s, _parse_save (self, w) = (Raised e, s)).
  { unfold _parse_save. run. rewrite append_message_run. fields.
    rewrite Hlive. unfold open_read. run. fields'. rewrite Hread.
    cbn [sum_map]. unfold id. rewrite Hos. eauto. }
  destruct E as [s E]. split; [by rewrite E|].
  unfold _create_perm_save. run. by rewrite Hlive, E.
Qed.

Lemma read_text_undecodable (p : Path) (f : FS) (b : list byte) :
  f !! p = Some (File b) → utf8_decode b = None →
  ∃ e, read_text p f = inl e ∧ exn_cls e = UnicodeDecodeError.
Proof. intros H1 H2. unfold read_text. rewrite H1, H2. eauto. Qed.

Lemma name_time_format (t : datetime) :
  strftime fmt_name t
  = pad2 (year t mod 100) ++ [dot] ++ pad2 (month t) ++ [dot] ++ pad2 (day t)
    ++ [space] ++ pad2 (hour t) ++ [dot] ++ pad2 (minute t).
Proof. reflexivity. Qed.

Lemma parse_save_join (self : CoGSaver) (w : World) (live : Path)
    (content : str) :
  save_location self = Some live →
  read_text live (fs w) = inr content →
  (_parse_save (self, w)).1
  = Returned (join [space]
                (option_list (group1 (Re.search name_re content))
                 ++ [name_time w]
                 ++ option_list (group1 (Re.search scene_re content)))).
Proof.
  intros Hlive Hread.
  rewrite (parse_save_readable self w live content Hlive Hread).
  unfold name_re, scene_re. by rewrite suggested_join.
Qed.

(** C8. The suggested name is the time stamp alone when no live save is
    selected.  When the live save can be read, it is the join, with single
    spaces, of the value of the name field when the search finds one, the
    time stamp, and the value of the scene field when the search finds
    one; so it is the time stamp alone when neither is found.  The time
    stamp is the clock reading in the form YY.MM.DD HH.MM. *)
Theorem C8_suggested_name (self : CoGSaver) (w : World) :
  (save_location self = None →
   (_parse_save (self, w)).1 = Returned (name_time w))
  ∧ (∀ live content,
       save_location self = Some live →
       read_text live (fs w) = inr content →
       let name := group1 (Re.search name_re content) in
       let scene := group1 (Re.search scene_re content) in
       (_parse_save (self, w)).1
       = Returned (join [space]
                     (option_list name ++ [name_time w] ++ option_list scene))
       ∧ (name = None → scene = None →
          (_parse_save (self, w)).1 = Returned (name_time w)))
  ∧ (∀ t, strftime fmt_name t
          = pad2 (year t mod 100) ++ [dot] ++ pad2 (month t) ++ [dot]
            ++ pad2 (day t) ++ [space] ++ pad2 (hour t) ++ [dot]
            ++ pad2 (minute t)).
Proof.
  split; [apply parse_save_unset|]. split; [|apply name_time_format].
  intros live content Hlive Hread name scene.
  rewrite (parse_save_join self w live content Hlive Hread).
  split; [done|]. fold name scene. by intros -> ->.
Qed.

Lemma C8_witness :
  read_text live files = inr live_text
  ∧ (_parse_save (session, world files)).1
    = Returned (py "Avery 24.01.02 12.30 chapter1")
  ∧ (_parse_save (fresh ∅, world files)).1 = Returned (py "24.01.02 12.30").
Proof.
  assert (H : read_text live files = inr live_text) by evaluate.
  split; [exact H|].
  destruct (C8_suggested_name session (world files)) as (_ & H2 & _).
  destruct (H2 live live_text eq_refl H) as [-> _].
  destruct (C8_suggested_name (fresh ∅) (world files)) as (H1 & _ & _).
  rewrite (H1 eq_refl). split; evaluate.
Defined.

(** C7, as the code has it.  The one search for the name looks for either
    field, and the match at the leftmost position wins, whichever of the
    two names it carries.  When the text read from the live save is a
    prefix in which the pattern matches nowhere, then a field called
    [name] or [firstname] (white space allowed around the colon, a value
    that is not empty and holds no double quote), then anything at all,
    the value of that field is the name extracted, and it opens the
    suggested name. *)
Theorem C7_leftmost_field_wins (self : CoGSaver) (w : World) (live : Path)
    (pre fname ws1 ws2 v rest : str) :
  let content := pre ++ field_text fname ws1 ws2 v rest in
  save_location self = Some live →
  read_text live (fs w) = inr content →
  fname ∈ [py "name"; py "firstname"] →
  Forall (λ c, Re.isspace c = true) ws1 →
  Forall (λ c, Re.isspace c = true) ws2 →
  v ≠ [] → dquote ∉ v →
  (∀ i, (i < length pre)%nat → Re.rmatch name_re (drop i content) = None) →
  group1 (Re.search name_re content) = Some v
  ∧ (_parse_save (self, w)).1
    = Returned (join [space]
                  ([v; name_time w]
                   ++ option_list (group1 (Re.search scene_re content)))).
Proof.
  intros content Hlive Hread Hname Hws1 Hws2 Hv Hq Hpre.
  assert (E : Re.search name_re content = Some {[ 1%nat := v ]}).
  { apply search_leftmost; [done|].
    by apply field_re_match; [apply accepts_name_or_firstname|..]. }
  assert (E1 : group1 (Re.search name_re content) = Some v) by (by rewrite E).
  split; [done|].
  rewrite (parse_save_join self w live content Hlive Hread). by rewrite E1.
Qed.

Lemma C7_witness :
  let w := world (game (ascii_bytes bob_text)) in
  bob_text
  = py "{" ++ field_text (py "firstname") [] [space] (py "Bob")
               (py ", " ++ quote "name" ++ py ": " ++ quote "Alice" ++ py "}")
  ∧ group1 (Re.search name_re bob_text) = Some (py "Bob")
  ∧ (_parse_save (chosen live, w)).1 = Returned (py "Bob 24.01.02 12.30").
Proof.
  intros w. split; [reflexivity|].
  destruct (C7_leftmost_field_wins (chosen live) w live (py "{")
              (py "firstname") [] [space] (py "Bob")
              (py ", " ++ quote "name" ++ py ": " ++ quote "Alice" ++ py "}"))
    as [H1 H2].
  - reflexivity.
  - evaluate.
  - evaluate.
  - constructor.
  - evaluate.
  - done.
  - evaluate.
  - intros [|i] Hi; [evaluate|cbn in Hi; lia].
  - split; [exact H1|]. rewrite H2. evaluate.
Defined.

(** C7, against the claim as stated.  The save below holds both a field
    [firstname] and, after it, a field [name]; each alone matches the
    pattern of its name.  The name extracted is the value of [firstname],
    not that of [name]. *)
Lemma C7_counterexample :
  let w := world (game (ascii_bytes bob_text)) in
  read_text live (fs w) = inr bob_text
  ∧ group1 (Re.search (field_re (Re.lit (py "name"))) bob_text)
    = Some (py "Alice")
  ∧ group1 (Re.search (field_re (Re.lit (py "firstname"))) bob_text)
    = Some (py "Bob")
  ∧ group1 (Re.search name_re bob_text) = Some (py "Bob")
  ∧ (_parse_save (chosen live, w)).1 = Returned (py "Bob 24.01.02 12.30").
Proof. intros w. evaluate. Qed.

(** ** A live save that is not UTF-8 *)

(** C6, the failing input.  The live save holds the single byte FF, which
    is not UTF-8.  Reading it raises [UnicodeDecodeError], which is not an
    [OSError]: the handler of [_parse_save] does not catch it, and
    [_create_perm_save] ends with that exception.  Only the opening
    message was added and only the read was made: no message tells the
    error, no fallback name is returned, nothing is copied. *)
Theorem C6_undecodable_save_raises :
  let w := world (game [xff]) in
  let e := Exn UnicodeDecodeError
             (py "'utf-8' codec can't decode byte: invalid start byte") in
  let r := _create_perm_save id (chosen live, w) in
  utf8_decode [xff] = None
  ∧ is_OSError (exn_cls e) = false
  ∧ (_parse_save (chosen live, w)).1 = Raised e
  ∧ r.1 = Raised e
  ∧ io_log r.2.2 = [IoRead live]
  ∧ main_message r.2.1
    = [message_item (noon 0) (py "Parsing current save...")]
  ∧ fs r.2.2 = fs w.
Proof. intros w e r. evaluate. Qed.

(** ** The extension of an archive save *)

Lemma rfind_from_absent (c : N) (s : str) (i : Z) :
  c ∉ s → rfind_from c s i = (-1)%Z.
Proof.
  revert i. induction s as [|x s IH]; intros i H; [done|].
  apply not_elem_of_cons in H as [Hx Hs]. cbn [rfind_from].
  rewrite IH by done. cbn.
  by destruct (N.eqb_spec x c) as [->|].
Qed.

(** The last occurrence: [rfind] is the length of what comes before it. *)
Lemma rfind_from_last (c : N) (stem ext : str) (i : Z) :
  (0 ≤ i)%Z → c ∉ ext →
  rfind_from c (stem ++ c :: ext) i = (i + Z.of_nat (length stem))%Z.
Proof.
  revert i. induction stem as [|x stem IH]; intros i Hi Hext; cbn [app rfind_from].
  - rewrite rfind_from_absent by done. cbn. rewrite N.eqb_refl. cbn. lia.
  - rewrite IH by (done || lia).
    destruct (Z.leb_spec 0 (i + 1 + Z.of_nat (length stem))); cbn [length]; lia.
Qed.

Lemma rfind_from_spec (c : N) (s : str) (i : Z) :
  (0 ≤ i)%Z →
  ((c ∉ s) ∧ rfind_from c s i = (-1)%Z)
  ∨ (∃ stem ext, s = stem ++ c :: ext ∧ (c ∉ ext)
       ∧ rfind_from c s i = (i + Z.of_nat (length stem))%Z).
Proof.
  intros Hi. destruct (decide (c ∈ s)) as [Hin|Hout].
  - right. revert Hin. induction s as [|x s IH] using rev_ind;
      [by intros ?%elem_of_nil|].
    destruct (decide (x = c)) as [->|Hne].
    + intros _. exists s, []. split; [done|]. split; [apply not_elem_of_nil|].
      by apply rfind_from_last; [|apply not_elem_of_nil].
    + intros [Hin|Hin%list_elem_of_singleton]%elem_of_app; [|done].
      destruct (IH Hin) as (stem & ext & -> & Hext & _).
      exists stem, (ext ++ [x]). rewrite <- app_assoc. split; [done|].
      assert (c ∉ ext ++ [x]).
      { rewrite elem_of_app, list_elem_of_singleton. by intros [?|?]. }
      split; [done|]. by apply rfind_from_last.
  - left. split; [done|]. by apply rfind_from_absent.
Qed.

(** A name has a suffix exactly when its last dot has something before it
    and something after it; the suffix is then that dot and what follows. *)
Lemma suffix_spec (p : Path) (sfx : str) :
  sfx ≠ [] →
  suffix p = sfx
  ↔ ∃ stem ext, name p = stem ++ dot :: ext ∧ stem ≠ [] ∧ ext ≠ []
                ∧ (dot ∉ ext) ∧ sfx = dot :: ext.
Proof.
  intros Hne. unfold suffix, rfind. split.
  - case_bool_decide as Hi; [|by intros <-]. intros <-.
    destruct (rfind_from_spec dot (name p) 0) as [[_ E]|(stem & ext & E & Hext & Er)];
      [done|lia|].
    rewrite Er in Hi |- *. rewrite E, length_app in Hi. cbn [length] in Hi.
    exists stem, ext. rewrite E at 1. split; [done|].
    split; [destruct stem; [cbn in Hi; lia|done]|].
    split; [destruct ext; [cbn in Hi; lia|done]|].
    split; [done|].
    rewrite E. replace (Z.to_nat (0 + Z.of_nat (length stem))) with (length stem) by lia.
    by rewrite drop_app_length.
  - intros (stem & ext & E & Hstem & Hext & Hdot & ->).
    rewrite E, rfind_from_last by done. rewrite length_app. cbn [length].
    rewrite bool_decide_eq_true_2.
    + replace (Z.to_nat (0 + Z.of_nat (length stem))) with (length stem) by lia.
      by rewrite drop_app_length.
    + destruct stem; [done|]. destruct ext; [done|]. cbn [length]. lia.
Qed.

Lemma suffix_nonempty_iff (p : Path) :
  suffix p ≠ []
  ↔ ∃ stem ext, name p = stem ++ dot :: ext ∧ stem ≠ [] ∧ ext ≠ []
                ∧ dot ∉ ext.
Proof.
  split.
  - intros H.
    destruct (proj1 (suffix_spec p (suffix p) H) eq_refl)
      as (stem & ext & ? & ? & ? & ? & _).
    eauto 7.
  - intros (stem & ext & E & ? & ? & ?).
    assert (suffix p = dot :: ext) as -> by (apply suffix_spec; eauto 8).
    done.
Qed.

Lemma digit_not_dot (n : nat) : digit n ≠ dot.
Proof. unfold digit, dot. lia. Qed.

(** The suffix of a name that ends with the time stamp: the dot and the
    two digits of the minute. *)
Lemma suffix_time_stamp (p : Path) (pre : str) (t : datetime) :
  name p = pre ++ strftime fmt_name t → suffix p = dot :: pad2 (minute t).
Proof.
  intros E. apply suffix_spec; [done|].
  exists (pre ++ pad2 (year t mod 100) ++ [dot] ++ pad2 (month t) ++ [dot]
          ++ pad2 (day t) ++ [space] ++ pad2 (hour t)), (pad2 (minute t)).
  split; [rewrite E, name_time_format; by rewrite <- !app_assoc|].
  split; [by destruct pre|]. split; [done|]. split; [|done].
  unfold pad2. rewrite !not_elem_of_cons.
  split; [|split; [|apply not_elem_of_nil]]; intros H; by apply (digit_not_dot _ (eq_sym H)).
Qed.

Lemma copy2_inl (src dst : Path) (f : FS) (e : exn) :
  copy2 src dst f = inl e → is_OSError (exn_cls e) = true.
Proof.
  unfold copy2. set (target := if is_dir f dst then _ else _).
  case_bool_decide; [intros ?; simplify_eq; reflexivity|].
  destruct (f !! src) as [[b|]|];
    [|intros ?; simplify_eq; reflexivity
     |intros ?; simplify_eq; apply os_error_lookup_is_OSError].
  destruct (is_dir f target); [intros ?; simplify_eq; reflexivity|].
  destruct (f !! parent target) as [[|]|]; intros ?; simplify_eq;
    first [reflexivity | apply os_error_lookup_is_OSError].
Qed.

(** The copy of [_create_perm_save] goes to [target_of] the path the
    dialog returned. *)
Lemma create_perm_save_copies_to_target (self : CoGSaver) (w : World)
    (live target : Path) (save_dialog : str → str) (nm : str)
    (s : CoGSaver * World) :
  save_location self = Some live →
  _parse_save (self, w) = (Returned nm, s) →
  let save_path :=
    save_dialog (match save_folder self with
                 | Some folder => to_str (folder // nm)
                 | None => nm
                 end) in
  save_path ≠ [] →
  target_of save_path = Some target →
  io_log (_create_perm_save save_dialog (self, w)).2.2
  = io_log s.2 ++ [IoCopy live target].
Proof.
  intros Hlive Hparse save_path Hne Htarget.
  unfold _create_perm_save. run. rewrite Hlive, Hparse. fold save_path.
  destruct save_path as [|c rest] eqn:E; [done|]. cbn [truthy].
  rewrite Htarget. unfold shutil_copy2. run. fields'.
  destruct (copy2 live target (fs s.2)) as [e|f'] eqn:Ec; cbn [sum_map].
  - pose proof (copy2_inl _ _ _ _ Ec) as Hos.
    unfold id. rewrite Hos, !append_message_run. reflexivity.
  - rewrite append_message_run. reflexivity.
Qed.

(** C10, as the code has it.  For a chosen path whose last component is
    not empty, the save goes to the path with [.cogsav] added to its name
    when the path has no suffix, and to the path as it is otherwise.  A
    name has a suffix exactly when it reads stem, dot, extension with a
    stem and an extension that are not empty and no dot in the extension;
    a leading dot alone, or a trailing one, makes no suffix.  A name that
    ends with the time stamp of the suggested name has the suffix made of
    the dot and the minutes, so nothing is added to it. *)
Theorem C10_extension_added_without_suffix (save_path : str) :
  let p := parse save_path in
  name p ≠ [] →
  target_of save_path
  = Some (if decide (suffix p = [])
          then mkPath (root p) (removelast (tail p) ++ [name p ++ py ".cogsav"])
          else p)
  ∧ (suffix p ≠ []
     ↔ ∃ stem ext, name p = stem ++ dot :: ext ∧ stem ≠ [] ∧ ext ≠ []
                   ∧ (dot ∉ ext))
  ∧ (∀ pre t, name p = pre ++ strftime fmt_name t →
       suffix p = dot :: pad2 (minute t) ∧ target_of save_path = Some p).
Proof.
  intros p Hname.
  assert (Ht : target_of save_path
    = Some (if decide (suffix p = [])
            then mkPath (root p) (removelast (tail p) ++ [name p ++ py ".cogsav"])
            else p)).
  { unfold target_of. fold p. destruct (decide (suffix p = [])) as [E|E].
    - rewrite E. cbn [truthy negb]. unfold with_suffix. rewrite E.
      destruct (name p); [done|]. reflexivity.
    - destruct (suffix p); [done|]. reflexivity. }
  split; [exact Ht|]. split; [apply suffix_nonempty_iff|].
  intros pre t E. pose proof (suffix_time_stamp p pre t E) as Hs.
  split; [exact Hs|]. rewrite Ht, Hs. reflexivity.
Qed.

Lemma C10_witness :
  name (parse (py "/g/saves/24.01.02 12.30")) ≠ []
  ∧ target_of (py "/g/saves/24.01.02 12.30")
    = Some (P "/g/saves/24.01.02 12.30")
  ∧ target_of (py "/g/saves/slot1") = Some (P "/g/saves/slot1.cogsav").
Proof.
  assert (H : name (parse (py "/g/saves/24.01.02 12.30")) ≠ []) by evaluate.
  split; [exact H|].
  destruct (C10_extension_added_without_suffix _ H) as (_ & _ & H3).
  split; [apply (H3 [] (noon 0)); evaluate|].
  destruct (C10_extension_added_without_suffix (py "/g/saves/slot1"))
    as (-> & _ & _); evaluate.
Defined.

(** C10, against the claim as stated.  The name [.hidden] holds a dot,
    yet the path has no suffix: the save is written to [.hidden.cogsav].
    The same goes for [slot.], whose dot comes last. *)
Lemma C10_counterexample :
  let r := _create_perm_save (λ _, py "/g/saves/.hidden") (session, world files) in
  dot ∈ name (parse (py "/g/saves/.hidden"))
  ∧ suffix (parse (py "/g/saves/.hidden")) = []
  ∧ target_of (py "/g/saves/.hidden") = Some (P "/g/saves/.hidden.cogsav")
  ∧ io_log r.2.2 = [IoRead live; IoCopy live (P "/g/saves/.hidden.cogsav")]
  ∧ is_Some (fs r.2.2 !! P "/g/saves/.hidden.cogsav")
  ∧ target_of (py "/g/saves/slot.") = Some (P "/g/saves/slot..cogsav").
Proof. intros r. evaluate. Qed.

(** The suggested name, accepted as it is: the save is written without
    the extension, and the listing does not show it afterwards. *)
Lemma default_name_is_saved_without_extension :
  let r := _create_perm_save id (session, world files) in
  let target := P "/g/saves/Avery 24.01.02 12.30 chapter1" in
  io_log r.2.2 = [IoRead live; IoCopy live target]
  ∧ is_Some (fs r.2.2 !! target)
  ∧ target ∉ saves_list (_generate_saves_list r.2).2.1.
Proof. intros r target. evaluate. Qed.

(** * Further properties *)

(** ** What every run of a method keeps *)

Section Always.
Context (R : relation (CoGSaver * World)) `{!PreOrder R}.

Lemma always_ret {A} (a : A) : always R (mret a).
Proof. intros s. reflexivity. Qed.

Lemma always_raise {A} (e : exn) : always R (@raise A e).
Proof. intros s. reflexivity. Qed.

Lemma always_get_self : always R get_self.
Proof. intros s. reflexivity. Qed.

Lemma always_bind {A B} (m : M A) (k : A → M B) :
  always R m → (∀ a, always R (k a)) → always R (m ≫= k).
Proof.
  intros Hm Hk s. unfold mbind, M_bind. specialize (Hm s).
  destruct (m s) as [[a|e] s']; [|done].
  etrans; [exact Hm|apply Hk].
Qed.

Lemma always_try {A} (body : M A) (handler : exn → M A) :
  always R body → (∀ e, always R (handler e)) →
  always R (try_except_OSError body handler).
Proof.
  intros Hb Hh s. unfold try_except_OSError. specialize (Hb s).
  destruct (body s) as [[a|e] s']; [done|].
  destruct (is_OSError (exn_cls e)); [|done].
  etrans; [exact Hb|apply Hh].
Qed.

Lemma always_for_each {A} (l : list A) (body : A → M ()) :
  (∀ x, always R (body x)) → always R (for_each l body).
Proof.
  intros Hb. induction l as [|x l IH]; [apply always_ret|].
  cbn [for_each]. apply always_bind; [apply Hb|by intros _].
Qed.
End Always.

(** Takes a method apart along its binds, handlers, loops and case
    distinctions, and leaves the elementary actions to [leaf]. *)
Ltac always_go leaf :=
  repeat first
    [ apply always_ret; apply _
    | apply always_raise; apply _
    | apply always_get_self; apply _
    | apply always_for_each; [apply _|intros ?]
    | apply always_try; [apply _| |intros ?]
    | apply always_bind; [apply _| |intros ?]
    | match goal with
      | |- always _ (match ?x with _ => _ end) => destruct x
      end
    | progress cbv zeta
    | leaf ].

#[global] Instance only_appends_preorder : PreOrder only_appends.
Proof.
  split.
  - intros s. by repeat split.
  - intros s1 s2 s3 (H1 & H2 & H3 & H4 & H5) (K1 & K2 & K3 & K4 & K5).
    repeat split; [by etrans|by etrans|lia|congruence|congruence].
Qed.

#[global] Instance same_session_preorder : PreOrder same_session.
Proof.
  split.
  - intros s. by repeat split.
  - intros s1 s2 s3 (H1 & H2 & H3 & H4 & H5 & H6) (K1 & K2 & K3 & K4 & K5 & K6).
    repeat split; congruence.
Qed.

#[global] Instance same_files_preorder : PreOrder same_files.
Proof. split; [done|]. intros s1 s2 s3. unfold same_files. congruence. Qed.

#[global] Instance files_kept_preorder : PreOrder files_kept.
Proof.
  split; [intros s; unfold files_kept; reflexivity|].
  intros s1 s2 s3. unfold files_kept. intros H1 H2. by trans (fs s2.2).
Qed.

#[global] Instance nothing_removed_preorder : PreOrder nothing_removed.
Proof.
  split; [by intros f p|]. intros f1 f2 f3 H1 H2 p.
  destruct (H1 p), (H2 p). auto.
Qed.

#[global] Instance never_removes_preorder : PreOrder never_removes.
Proof.
  split; [by intros s p|]. intros s1 s2 s3. unfold never_removes.
  intros H1 H2. by trans (fs s2.2).
Qed.

(** The elementary actions, opened up: the state is a pair, the action
    is unfolded, and every case of what the system answers is looked at. *)
Ltac open_leaf :=
  intros [? ?];
  unfold set_self, datetime_now, path_exists, path_resolve, path_glob,
    open_read, syscall;
  fields';
  repeat match goal with
    | |- context [match ?x with _ => _ end] => destruct x
    end;
  fields'.

Ltac appends_leaf :=
  first
    [ open_leaf; unfold only_appends; fields';
      repeat split; solve [done | by apply prefix_app_r | lia]
    | unfold path_mkdir, shutil_copy2; open_leaf; unfold only_appends; fields';
      repeat split; solve [done | by apply prefix_app_r | lia] ].

Create HintDb appends discriminated.

Ltac appends := always_go ltac:(first [solve [auto with appends] | appends_leaf]).

Lemma append_message_only_appends msg : always only_appends (_append_message msg).
Proof. unfold _append_message. appends. Qed.
#[local] Hint Resolve append_message_only_appends : appends.

Lemma load_preferences_only_appends : always only_appends _load_preferences.
Proof. unfold _load_preferences. appends. Qed.

Lemma generate_saves_list_only_appends : always only_appends _generate_saves_list.
Proof. unfold _generate_saves_list. appends. Qed.
#[local] Hint Resolve load_preferences_only_appends
  generate_saves_list_only_appends : appends.

Lemma update_game_only_appends : always only_appends _update_game.
Proof. unfold _update_game. appends. Qed.
#[local] Hint Resolve update_game_only_appends : appends.

Lemma init_ui_only_appends : always only_appends _init_ui.
Proof. unfold _init_ui. appends. Qed.
#[local] Hint Resolve init_ui_only_appends : appends.

Lemma parse_save_only_appends : always only_appends _parse_save.
Proof. unfold _parse_save. appends. Qed.
#[local] Hint Resolve parse_save_only_appends : appends.

(** The message list and the record of file-system calls are only ever
    extended: whatever a method does, and whether it returns or raises,
    what was logged before is a prefix of what is logged after; the clock
    is only read forward. *)
Theorem logs_only_grow (open_dialog save_dialog : str → str) :
  always only_appends __init__
  ∧ always only_appends _update_game
  ∧ always only_appends _generate_saves_list
  ∧ always only_appends (_change_game open_dialog)
  ∧ always only_appends _quick_save
  ∧ always only_appends _quick_load
  ∧ always only_appends _parse_save
  ∧ always only_appends (_create_perm_save save_dialog)
  ∧ always only_appends (_load_perm_save open_dialog).
Proof.
  split_and!.
  - unfold __init__. appends.
  - auto with appends.
  - auto with appends.
  - unfold _change_game. appends.
  - unfold _quick_save. appends.
  - unfold _quick_load. appends.
  - auto with appends.
  - unfold _create_perm_save. appends.
  - unfold _load_perm_save. appends.
Qed.

Lemma always_weaken {A} (R R' : relation (CoGSaver * World)) (m : M A) :
  (∀ s s', R s s' → R' s s') → always R m → always R' m.
Proof. intros H Hm s. apply H, Hm. Qed.

(** *** The transfers leave the session alone *)

Create HintDb session discriminated.

Ltac session :=
  always_go ltac:(first
    [ solve [auto with session]
    | unfold path_mkdir, shutil_copy2; open_leaf; unfold same_session; fields';
      by repeat split ]).

Lemma append_message_same_session msg : always same_session (_append_message msg).
Proof. unfold _append_message. session. Qed.
#[local] Hint Resolve append_message_same_session : session.

Lemma parse_save_same_session : always same_session _parse_save.
Proof. unfold _parse_save. session. Qed.
#[local] Hint Resolve parse_save_same_session : session.

(** Quick save, quick load, creating and loading an archive save, and the
    derivation of the suggested name never change the live save path, the
    archive directory, the quick-save path, the archive listing, the
    stored preferences or the window title, whatever the dialogs answer
    and whether the copy succeeds, fails or an exception leaves the
    method. *)
Theorem transfers_keep_session (open_dialog save_dialog : str → str) :
  always same_session _quick_save
  ∧ always same_session _quick_load
  ∧ always same_session _parse_save
  ∧ always same_session (_create_perm_save save_dialog)
  ∧ always same_session (_load_perm_save open_dialog).
Proof.
  split_and!.
  - unfold _quick_save. session.
  - unfold _quick_load. session.
  - auto with session.
  - unfold _create_perm_save. session.
  - unfold _load_perm_save. session.
Qed.

(** *** What happens to the files *)

Lemma mkdir_exist_ok_subseteq (p : Path) (f f' : FS) :
  mkdir_exist_ok p f = inr f' → f ⊆ f'.
Proof.
  unfold mkdir_exist_ok. destruct (os_mkdir p f) as [e|f''] eqn:Eo.
  - destruct (is_dir f p); intros ?; by simplify_eq.
  - intros ?. simplify_eq. unfold os_mkdir in Eo.
    destruct (f !! p) eqn:E; [done|].
    destruct (f !! parent p) as [[|]|]; simplify_eq.
    by apply insert_subseteq.
Qed.

Lemma subseteq_nothing_removed (f f' : FS) : f ⊆ f' → nothing_removed f f'.
Proof.
  intros H p. split.
  - intros [n Hn]. exists n. by eapply lookup_weaken.
  - intros Hn. by eapply lookup_weaken.
Qed.

Lemma copy2_nothing_removed (src dst : Path) (f f' : FS) :
  copy2 src dst f = inr f' → nothing_removed f f'.
Proof.
  intros (b & target & _ & _ & _ & Hdir & ->)%copy2_target p.
  destruct (decide (target = p)) as [->|Hne].
  - rewrite lookup_insert_eq. split; [eauto|].
    intros Hp. unfold is_dir in Hdir. by rewrite Hp in Hdir.
  - by rewrite lookup_insert_ne.
Qed.

Create HintDb files discriminated.

Ltac same_files :=
  always_go ltac:(first
    [ solve [auto with files]
    | open_leaf; unfold same_files; fields'; done ]).

Lemma append_message_same_files msg : always same_files (_append_message msg).
Proof. unfold _append_message. same_files. Qed.
#[local] Hint Resolve append_message_same_files : files.

Lemma same_files_always_kept {A} (m : M A) :
  always same_files m → always files_kept m.
Proof. apply always_weaken. unfold same_files, files_kept. by intros s s' ->. Qed.

Lemma same_files_always_removes {A} (m : M A) :
  always same_files m → always never_removes m.
Proof.
  apply always_weaken. unfold same_files, never_removes. by intros s s' ->.
Qed.

Lemma open_read_same_files p : always same_files (open_read p).
Proof.
  intros [self w]. unfold open_read, syscall, same_files. fields'.
  by destruct (read_text p (fs w)).
Qed.
#[local] Hint Resolve open_read_same_files : files.

Lemma load_preferences_same_files : always same_files _load_preferences.
Proof. unfold _load_preferences. same_files. Qed.

Lemma generate_saves_list_same_files : always same_files _generate_saves_list.
Proof. unfold _generate_saves_list. same_files. Qed.

Lemma init_ui_same_files : always same_files _init_ui.
Proof. unfold _init_ui. same_files. Qed.

Lemma parse_save_same_files : always same_files _parse_save.
Proof. unfold _parse_save. same_files. Qed.

#[local] Hint Resolve load_preferences_same_files
  generate_saves_list_same_files init_ui_same_files parse_save_same_files
  same_files_always_kept same_files_always_removes : files.

Lemma path_mkdir_files_kept p : always files_kept (path_mkdir p).
Proof.
  intros [self w]. unfold path_mkdir, syscall, files_kept. fields'.
  destruct (mkdir_exist_ok p (fs w)) as [e|f'] eqn:E; cbn [sum_map]; fields'.
  - done.
  - by apply mkdir_exist_ok_subseteq in E.
Qed.

Lemma shutil_copy2_never_removes src dst :
  always never_removes (shutil_copy2 src dst).
Proof.
  intros [self w]. unfold shutil_copy2, syscall, never_removes. fields'.
  destruct (copy2 src dst (fs w)) as [e|f'] eqn:E; cbn [sum_map]; fields'.
  - done.
  - by apply copy2_nothing_removed in E.
Qed.

#[local] Hint Resolve path_mkdir_files_kept shutil_copy2_never_removes : files.

Ltac kept :=
  always_go ltac:(first
    [ solve [auto with files]
    | open_leaf; unfold files_kept; fields'; done ]).

Lemma update_game_files_kept : always files_kept _update_game.
Proof. unfold _update_game. kept. Qed.
#[local] Hint Resolve update_game_files_kept : files.

(** Before the update of a selection no file changes, and after it
    neither the files nor the archive directory do. *)
Lemma makes_after {A B} (m : M A) (k : A → M B) :
  always same_files m →
  (∀ a, always makes_archive_directory_at_most (k a)) →
  always makes_archive_directory_at_most (m ≫= k).
Proof.
  intros Hm Hk s. unfold mbind, M_bind. specialize (Hm s).
  unfold same_files in Hm.
  destruct (m s) as [[a|e] s']; cbn [snd] in *; [|by left].
  specialize (Hk a s'). unfold makes_archive_directory_at_most in *.
  by rewrite <- Hm.
Qed.

Lemma makes_before {A B} (m : M A) (k : A → M B) :
  always makes_archive_directory_at_most m →
  (∀ a, always same_files_and_folder (k a)) →
  always makes_archive_directory_at_most (m ≫= k).
Proof.
  intros Hm Hk s. unfold mbind, M_bind. specialize (Hm s).
  destruct (m s) as [[a|e] s']; cbn [snd] in *; [|done].
  destruct (Hk a s') as [Hfs Hfolder].
  unfold makes_archive_directory_at_most in *. by rewrite Hfs, Hfolder.
Qed.

Lemma update_game_makes_at_most :
  always makes_archive_directory_at_most _update_game.
Proof.
  intros [self w]. unfold _update_game. run.
  destruct (save_location self) as [loc|] eqn:Hloc;
    [|left; by rewrite append_message_run].
  unfold path_exists. run. fields'.
  case_bool_decide as Hex; fields'; [|left; by rewrite append_message_run].
  unfold path_resolve. run. fields'.
  destruct (realpath w loc) as [e|canon] eqn:Hcanon; fields'.
  { left. destruct (is_OSError (exn_cls e)); [|done].
    by rewrite !append_message_run. }
  set (folder := parent canon // py "saves").
  unfold path_mkdir. run. fields'.
  destruct (mkdir_exist_ok folder (fs w)) as [e|f'] eqn:Emk; cbn [sum_map].
  - left. unfold id. rewrite (mkdir_exist_ok_inl _ _ _ Emk).
    by rewrite !append_message_run.
  - fields'. rewrite !append_message_run. fields'.
    match goal with |- context [_generate_saves_list (?s, ?w')] =>
      destruct (generate_saves_list_run s w') as (items & n & calls & E)
    end.
    rewrite E. unfold makes_archive_directory_at_most. fields'.
    destruct (mkdir_exist_ok_inr_inv _ _ _ Emk) as [[-> _]|[Hnone ->]];
      [by left|right; by exists folder].
Qed.

(** Starting up and selecting a game change the files by one addition at
    most: afterwards the files are what they were, or what they were with
    one directory more, made where nothing was, and that directory is the
    archive directory of the session.  So nothing that exists is changed
    or removed.  Listing the archive saves and deriving the suggested name
    change no file at all. *)
Theorem selection_keeps_files (open_dialog : str → str) :
  always makes_archive_directory_at_most __init__
  ∧ always makes_archive_directory_at_most _update_game
  ∧ always makes_archive_directory_at_most (_change_game open_dialog)
  ∧ always files_kept __init__
  ∧ always files_kept _update_game
  ∧ always files_kept (_change_game open_dialog)
  ∧ always same_files _generate_saves_list
  ∧ always same_files _parse_save.
Proof.
  split_and!.
  - unfold __init__.
    apply makes_after; [apply init_ui_same_files|intros _].
    apply makes_after; [apply load_preferences_same_files|intros _].
    apply update_game_makes_at_most.
  - apply update_game_makes_at_most.
  - unfold _change_game.
    apply makes_after; [same_files|intros self]. cbv zeta.
    destruct (truthy _); [|by left].
    apply makes_after; [apply append_message_same_files|intros _].
    destruct (endswith _ _).
    + apply makes_after; [same_files|intros _].
      apply makes_after; [same_files|intros _].
      apply makes_before; [apply update_game_makes_at_most|by intros _ s].
    + intros s. left. revert s.
      change (always same_files
                (set_self (with_save_location None);;
                 _append_message msg_invalid_selection)).
      same_files.
  - unfold __init__. kept.
  - auto with files.
  - unfold _change_game. kept.
  - apply generate_saves_list_same_files.
  - apply parse_save_same_files.
Qed.

Ltac removes :=
  always_go ltac:(first
    [ solve [auto with files]
    | open_leaf; unfold never_removes; fields'; done ]).

(** The transfers never remove anything: after a quick save, a quick
    load, the creation or the loading of an archive save, every path that
    existed still exists and every directory is still a directory; a copy
    only creates or overwrites a regular file. *)
Theorem transfers_never_remove (open_dialog save_dialog : str → str) :
  always never_removes _quick_save
  ∧ always never_removes _quick_load
  ∧ always never_removes (_create_perm_save save_dialog)
  ∧ always never_removes (_load_perm_save open_dialog).
Proof.
  split_and!.
  - unfold _quick_save. removes.
  - unfold _quick_load. removes.
  - unfold _create_perm_save. removes.
  - unfold _load_perm_save. removes.
Qed.

(** ** The exceptions that leave a method *)

Section Raises.
Context (P : exn → Prop).

Lemma raises_ret {A} (a : A) : raises_only P (mret a).
Proof. by intros s. Qed.

Lemma raises_raise {A} (e : exn) : P e → raises_only P (@raise A e).
Proof. by intros H s. Qed.

Lemma raises_bind {A B} (m : M A) (k : A → M B) :
  raises_only P m → (∀ a, raises_only P (k a)) → raises_only P (m ≫= k).
Proof.
  intros Hm Hk s. unfold mbind, M_bind. specialize (Hm s).
  destruct (m s) as [[a|e] s']; [apply Hk|done].
Qed.

(** An [OSError] of the body is handled; its other exceptions go on. *)
Lemma raises_try {A} (Q : exn → Prop) (body : M A) (handler : exn → M A) :
  raises_only Q body →
  (∀ e, raises_only P (handler e)) →
  (∀ e, Q e → is_OSError (exn_cls e) = false → P e) →
  raises_only P (try_except_OSError body handler).
Proof.
  intros Hb Hh HQ s. unfold try_except_OSError. specialize (Hb s).
  destruct (body s) as [[a|e] s']; [done|]. cbn in Hb.
  destruct (is_OSError (exn_cls e)) eqn:E; [apply Hh|by apply HQ].
Qed.

Lemma raises_for_each {A} (l : list A) (body : A → M ()) :
  (∀ x, raises_only P (body x)) → raises_only P (for_each l body).
Proof.
  intros Hb. induction l as [|x l IH]; [apply raises_ret|].
  cbn [for_each]. apply raises_bind; [apply Hb|by intros _].
Qed.

Lemma raises_get_self : raises_only P get_self.
Proof. by intros s. Qed.

Lemma raises_set_self upd : raises_only P (set_self upd).
Proof. by intros s. Qed.

Lemma raises_datetime_now : raises_only P datetime_now.
Proof. by intros s. Qed.

Lemma raises_path_exists p : raises_only P (path_exists p).
Proof. by intros s. Qed.

Lemma raises_path_glob p pat : raises_only P (path_glob p pat).
Proof. by intros s. Qed.

Lemma raises_append_message msg : raises_only P (_append_message msg).
Proof. by intros s. Qed.
End Raises.

Lemma raises_weaken {A} (P Q : exn → Prop) (m : M A) :
  (∀ e, P e → Q e) → raises_only P m → raises_only Q m.
Proof.
  intros H Hm s. specialize (Hm s). destruct ((m s).1); [done|by apply H].
Qed.

(** The system calls that change files raise nothing but an [OSError]. *)
Lemma raises_shutil_copy2 src dst :
  raises_only (λ e, is_OSError (exn_cls e) = true) (shutil_copy2 src dst).
Proof.
  intros [self w]. unfold shutil_copy2, syscall. fields'.
  destruct (copy2 src dst (fs w)) as [e|f'] eqn:E; cbn [sum_map fst]; [|done].
  by apply copy2_inl in E.
Qed.

Lemma raises_path_mkdir p :
  raises_only (λ e, is_OSError (exn_cls e) = true) (path_mkdir p).
Proof.
  intros [self w]. unfold path_mkdir, syscall. fields'.
  destruct (mkdir_exist_ok p (fs w)) as [e|f'] eqn:E; cbn [sum_map fst]; [|done].
  by apply mkdir_exist_ok_inl in E.
Qed.

(** Reading text raises an [OSError] or a [UnicodeDecodeError]. *)
Lemma raises_open_read p :
  raises_only (λ e, is_OSError (exn_cls e) = true
                    ∨ exn_cls e = UnicodeDecodeError) (open_read p).
Proof.
  intros [self w]. unfold open_read, syscall, read_text. fields'.
  destruct (fs w !! p) as [[b|]|]; cbn [sum_map fst];
    [|by left|left; apply os_error_lookup_is_OSError].
  destruct (utf8_decode b); cbn [sum_map fst]; [done|by right].
Qed.

Lemma elem_of_ancestors (q : Path) (rt : str) (tl : list str) (n : nat) :
  q ∈ ancestors rt tl n → root q = rt ∧ tail q `prefix_of` tl.
Proof.
  revert tl. induction n as [|n IH]; intros tl; cbn [ancestors];
    [by intros ?%elem_of_nil|].
  assert (Hrm : removelast tl `prefix_of` tl).
  { destruct (decide (tl = [])) as [->|Hne]; [done|].
    exists [List.last tl []]. by apply app_removelast_last. }
  intros [->|Hin]%elem_of_cons; [done|].
  destruct (IH _ Hin) as [? ?]. split; [done|by etrans].
Qed.

(** The path shown after a load can always be computed: when the archive
    directory is an ancestor of the file, the file is below the parent of
    the archive directory. *)
Lemma relative_to_parent_of_ancestor (p folder : Path) :
  folder ∈ parents p → is_Some (relative_to p (parent folder)).
Proof.
  intros [Hr Ht]%elem_of_ancestors. unfold relative_to.
  rewrite bool_decide_eq_true_2; [eauto|].
  unfold parent. destruct (tail folder) as [|c tl] eqn:E; [by rewrite E|].
  cbn [root tail]. split; [done|]. etrans; [|exact Ht].
  exists [List.last (c :: tl) []]. by apply app_removelast_last.
Qed.

Ltac raises_go leaf :=
  repeat first
    [ leaf
    | apply raises_ret | apply raises_get_self | apply raises_set_self
    | apply raises_datetime_now | apply raises_path_exists
    | apply raises_path_glob | apply raises_append_message
    | apply raises_for_each; intros ?
    | apply raises_bind; [|intros ?]
    | match goal with
      | |- raises_only _ (match ?x with _ => _ end) => destruct x eqn:?
      end
    | progress cbv zeta ].

(** A handler around a body that raises only what [Q] allows. *)
Ltac handled Q :=
  apply (raises_try _ Q);
    [ | intros ?; raises_go fail
      | cbv beta; intros ? HQ ?;
        first [congruence | destruct HQ; [congruence|done]] ].

Lemma quick_save_never_raises : never_raises _quick_save.
Proof.
  unfold never_raises, _quick_save. raises_go fail.
  handled (λ e, is_OSError (exn_cls e) = true).
  raises_go ltac:(apply raises_shutil_copy2).
Qed.

Lemma quick_load_never_raises : never_raises _quick_load.
Proof.
  unfold never_raises, _quick_load. raises_go fail.
  handled (λ e, is_OSError (exn_cls e) = true).
  raises_go ltac:(apply raises_shutil_copy2).
Qed.

Lemma load_perm_save_never_raises dlg : never_raises (_load_perm_save dlg).
Proof.
  unfold never_raises, _load_perm_save. raises_go fail.
  handled (λ e, is_OSError (exn_cls e) = true).
  raises_go ltac:(apply raises_shutil_copy2).
  exfalso.
  match goal with
  | H : bool_decide (?f ∈ parents ?p) = true, H' : relative_to ?p _ = None |- _ =>
      apply bool_decide_eq_true_1, relative_to_parent_of_ancestor in H;
      rewrite H' in H; by destruct H
  end.
Qed.

Lemma parse_save_raises_only :
  raises_only (λ e, exn_cls e = UnicodeDecodeError) _parse_save.
Proof.
  unfold _parse_save. raises_go fail.
  handled (λ e, is_OSError (exn_cls e) = true ∨ exn_cls e = UnicodeDecodeError).
  raises_go ltac:(apply raises_open_read).
Qed.

Lemma create_perm_save_raises_only dlg :
  raises_only (λ e, exn_cls e = UnicodeDecodeError ∨ exn_cls e = ValueError)
    (_create_perm_save dlg).
Proof.
  unfold _create_perm_save.
  raises_go ltac:(first
    [ apply (raises_weaken _ _ _ (λ e H, or_introl H) parse_save_raises_only)
    | apply raises_raise; by right ]).
  handled (λ e, is_OSError (exn_cls e) = true).
  raises_go ltac:(apply raises_shutil_copy2).
Qed.

(** Quick save, quick load and the loading of an archive save handle
    every failure themselves: no exception ever leaves them, whatever the
    session, the files and the answer of the dialog. *)
Theorem transfers_never_raise (open_dialog : str → str) :
  never_raises _quick_save
  ∧ never_raises _quick_load
  ∧ never_raises (_load_perm_save open_dialog).
Proof.
  split_and!;
    [apply quick_save_never_raises | apply quick_load_never_raises
    | apply load_perm_save_never_raises].
Qed.

(** The only exception that leaves the derivation of the suggested name
    is the decoding error of the read; creating an archive save lets
    through that one and the [ValueError] of a path without a name, and
    nothing else. *)
Theorem create_perm_save_lets_through (save_dialog : str → str) :
  raises_only (λ e, exn_cls e = UnicodeDecodeError) _parse_save
  ∧ raises_only (λ e, exn_cls e = UnicodeDecodeError ∨ exn_cls e = ValueError)
      (_create_perm_save save_dialog).
Proof.
  split; [apply parse_save_raises_only|apply create_perm_save_raises_only].
Qed.

(** ** Quick save and quick load, case by case *)

(** A copy from a regular file to a path that is not a directory, in a
    directory that exists, succeeds and writes exactly that path. *)
Lemma copy2_file_to_file (src dst : Path) (f : FS) (b : list byte) :
  f !! src = Some (File b) → src ≠ dst →
  is_dir f dst = false → f !! parent dst = Some Dir →
  copy2 src dst f = inr (<[dst := File b]> f).
Proof.
  intros Hsrc Hne Hdir Hpar. unfold copy2. rewrite Hdir.
  rewrite bool_decide_eq_false_2 by (by intros [? _]).
  by rewrite Hsrc, Hdir, Hpar.
Qed.

Lemma copy2_missing_source (src dst : Path) (f : FS) :
  f !! src = None →
  copy2 src dst f = inl (os_error (lookup_error f src) src).
Proof.
  intros Hsrc. unfold copy2.
  rewrite bool_decide_eq_false_2; [by rewrite Hsrc|].
  rewrite Hsrc. by intros [_ [? ?]].
Qed.

(** A text of printable ASCII characters without a single quote or a
    backslash is written as it is, in single quotes. *)
Lemma repr_plain (s : str) :
  Forall (λ c, 32 ≤ c ∧ c < 127 ∧ c ≠ squote ∧ c ≠ backslash) s →
  repr s = quoted s.
Proof.
  intros Hs. unfold repr, quoted.
  rewrite bool_decide_eq_false_2.
  - do 2 f_equal. induction Hs as [|c s (H1 & H2 & H3 & H4) _ IH]; [done|].
    change ((c :: s) ≫= repr_char squote)
      with (repr_char squote c ++ (s ≫= repr_char squote)).
    rewrite IH. unfold repr_char, squote, backslash in *.
    rewrite (proj2 (N.eqb_neq c 39)), (proj2 (N.eqb_neq c 92)) by done.
    rewrite (proj2 (N.eqb_neq c 9)), (proj2 (N.eqb_neq c 10)),
      (proj2 (N.eqb_neq c 13)), (proj2 (N.eqb_neq c 127)) by lia.
    rewrite (proj2 (N.ltb_ge c 32)), (proj2 (N.ltb_lt c 127)) by lia.
    reflexivity.
  - intros [Hin _]. apply (proj1 (Forall_forall _ _) Hs) in Hin. tauto.
Qed.

(** With a live save selected and no quick-save path derived, quick save
    goes through without a copy and without a message. *)
Lemma quick_save_without_quick_path (self : CoGSaver) (w : World)
    (live : Path) :
  save_location self = Some live →
  quick_save_location self = None →
  _quick_save (self, w) = (Returned (), (self, w)).
Proof.
  intros Hlive Hquick. unfold _quick_save. run. by rewrite Hlive, Hquick.
Qed.

(** When nothing exists at the live save path, quick save returns
    normally, changes no file, and adds two messages: the error of the
    system, and the line that the quick save failed.  The error is
    number 2 (no such file or directory), or number 20 (not a directory)
    when one of the ancestors of the path is a regular file, followed by
    the path as [repr] writes it.  The path is one whose characters are
    all below U+0100, where [isprintable] is the table of the Unicode
    database. *)
Theorem quick_save_missing_live_save (self : CoGSaver) (w : World)
    (live quick : Path) :
  save_location self = Some live →
  quick_save_location self = Some quick →
  fs w !! live = None →
  Forall (λ c, c < 256) (to_str live) →
  let r := _quick_save (self, w) in
  r.1 = Returned ()
  ∧ fs r.2.2 = fs w
  ∧ io_log r.2.2 = io_log w ++ [IoCopy live quick]
  ∧ main_message r.2.1
    = main_message self
      ++ [message_item (clock w (ticks w))
            (py "Error: "
             ++ (if existsb (is_file (fs w)) (parents live)
                 then py "[Errno 20] Not a directory: "
                 else py "[Errno 2] No such file or directory: ")
             ++ repr (to_str live));
          message_item (clock w (S (ticks w))) (py "Quicksave failed")].
Proof.
  intros Hlive Hquick Hgone _. unfold _quick_save. run.
  rewrite Hlive, Hquick. unfold shutil_copy2. run. fields'.
  rewrite (copy2_missing_source _ _ _ Hgone). cbn [sum_map]. unfold id.
  rewrite os_error_lookup_is_OSError.
  rewrite !append_message_run. fields'. rewrite <- app_assoc.
  split_and!; try reflexivity.
  unfold lookup_error. by destruct (existsb _ _).
Qed.

(** When the live save is a regular file, and the quick-save path is
    another path, not a directory, in a directory that exists, quick save
    succeeds: the quick-save file holds the bytes of the live save
    (replacing an earlier quick save), no other path changes, and the one
    message is added. *)
Theorem quick_save_effect (self : CoGSaver) (w : World) (live quick : Path)
    (b : list byte) :
  save_location self = Some live →
  quick_save_location self = Some quick →
  fs w !! live = Some (File b) →
  live ≠ quick →
  is_dir (fs w) quick = false →
  fs w !! parent quick = Some Dir →
  let r := _quick_save (self, w) in
  r.1 = Returned ()
  ∧ fs r.2.2 = <[quick := File b]> (fs w)
  ∧ fs r.2.2 !! quick = Some (File b)
  ∧ (∀ p, p ≠ quick → fs r.2.2 !! p = fs w !! p)
  ∧ main_message r.2.1
    = main_message self ++ [message_item (clock w (ticks w)) (py "Quicksaved")].
Proof.
  intros Hlive Hquick Hb Hne Hdir Hpar. unfold _quick_save. run.
  rewrite Hlive, Hquick. unfold shutil_copy2. run. fields'.
  rewrite (copy2_file_to_file _ _ _ _ Hb Hne Hdir Hpar). cbn [sum_map].
  rewrite append_message_run. fields'.
  split_and!; try reflexivity.
  - by rewrite lookup_insert_eq.
  - intros p Hp. by rewrite lookup_insert_ne.
Qed.

(** When the quick save is a regular file, and the live save path is
    another path, not a directory, in a directory that exists, quick load
    succeeds: the live save holds the bytes of the quick save, the quick
    save and every other path are unchanged, and the one message is
    added. *)
Theorem quick_load_effect (self : CoGSaver) (w : World) (live quick : Path)
    (b : list byte) :
  save_location self = Some live →
  quick_save_location self = Some quick →
  fs w !! quick = Some (File b) →
  quick ≠ live →
  is_dir (fs w) live = false →
  fs w !! parent live = Some Dir →
  let r := _quick_load (self, w) in
  r.1 = Returned ()
  ∧ fs r.2.2 = <[live := File b]> (fs w)
  ∧ fs r.2.2 !! live = Some (File b)
  ∧ (∀ p, p ≠ live → fs r.2.2 !! p = fs w !! p)
  ∧ main_message r.2.1
    = main_message self ++ [message_item (clock w (ticks w)) (py "Loaded")].
Proof.
  intros Hlive Hquick Hb Hne Hdir Hpar. unfold _quick_load. run.
  rewrite Hlive, Hquick. unfold path_exists, shutil_copy2. run. fields'.
  rewrite bool_decide_eq_true_2 by (rewrite Hb; eauto). fields'.
  rewrite (copy2_file_to_file _ _ _ _ Hb Hne Hdir Hpar). cbn [sum_map].
  rewrite append_message_run. fields'.
  split_and!; try reflexivity.
  - by rewrite lookup_insert_eq.
  - intros p Hp. by rewrite lookup_insert_ne.
Qed.

(** ** Dialogs that are cancelled, and paths without a name *)

(** Cancelling the dialog changes nothing.  After a cancelled selection
    and after a cancelled load, the session and the world are exactly
    what they were: no message, no call.  After a cancelled save, the
    state is the one the derivation of the suggested name left, and the
    outcome is that of the derivation: nothing is copied. *)
Theorem cancelled_dialogs (self : CoGSaver) (w : World) :
  _change_game (λ _, []) (self, w) = (Returned (), (self, w))
  ∧ (∀ live, save_location self = Some live →
       _load_perm_save (λ _, []) (self, w) = (Returned (), (self, w))
       ∧ (_create_perm_save (λ _, []) (self, w)).2 = (_parse_save (self, w)).2
       ∧ fs (_create_perm_save (λ _, []) (self, w)).2.2 = fs w
       ∧ (∀ nm, (_parse_save (self, w)).1 = Returned nm →
            (_create_perm_save (λ _, []) (self, w)).1 = Returned ())).
Proof.
  split; [reflexivity|]. intros live Hlive.
  assert (E : _create_perm_save (λ _, []) (self, w)
              = (match (_parse_save (self, w)).1 with
                 | Returned _ => Returned ()
                 | Raised e => Raised e
                 end, (_parse_save (self, w)).2)).
  { unfold _create_perm_save. run. rewrite Hlive.
    by destruct (_parse_save (self, w)) as [[nm|e] s]. }
  split_and!.
  - unfold _load_perm_save. run. by rewrite Hlive.
  - by rewrite E.
  - rewrite E. apply parse_save_same_files.
  - intros nm Hnm. by rewrite E, Hnm.
Qed.

(** A chosen path without a final component (the root, or the current
    directory) makes the creation of an archive save raise [ValueError]:
    nothing is copied, and no message tells the failure. *)
Theorem create_perm_save_without_name (self : CoGSaver) (w : World)
    (live : Path) (save_dialog : str → str) (nm : str) :
  save_location self = Some live →
  (_parse_save (self, w)).1 = Returned nm →
  let save_path :=
    save_dialog (match save_folder self with
                 | Some folder => to_str (folder // nm)
                 | None => nm
                 end) in
  save_path ≠ [] →
  name (parse save_path) = [] →
  let r := _create_perm_save save_dialog (self, w) in
  r.1 = Raised (Exn ValueError
                  (to_str (parse save_path) ++ py " has an empty name"))
  ∧ r.2 = (_parse_save (self, w)).2
  ∧ fs r.2.2 = fs w.
Proof.
  intros Hlive Hparse save_path Hne Hname r.
  pose proof (parse_save_same_files (self, w)) as Hfs. unfold same_files in Hfs.
  assert (E : r = (Raised (Exn ValueError
                     (to_str (parse save_path) ++ py " has an empty name")),
                   (_parse_save (self, w)).2)).
  { subst r. unfold _create_perm_save. run. rewrite Hlive.
    destruct (_parse_save (self, w)) as [o s]. cbn [fst] in Hparse. subst o.
    fold save_path.
    destruct save_path as [|c rest] eqn:E; [done|]. cbn [truthy].
    unfold target_of, suffix, with_suffix. rewrite Hname. reflexivity. }
  rewrite E. cbn [fst snd]. by split_and!.
Qed.

(** ** Starting up *)

(** The start with a stored path at which nothing exists. *)
Lemma init_with_stale_preference (prefs : gmap str str) (w : World)
    (stored : str) :
  prefs !! py "saveLocation" = Some stored → stored ≠ [] →
  fs w !! parse stored = None →
  __init__ (fresh prefs, w)
  = (Returned (),
     (with_main_message
        [message_item (clock w (ticks w)) msg_no_game_selected]
        (with_save_location (Some (parse stored))
           (with_window_title (py "CoG Saver") (fresh prefs))),
      with_ticks (S (ticks w))
        (with_io_log
           (io_log w ++ [IoExists (parse (py "icon.gif"));
                         IoExists (parse stored)]) w))).
Proof.
  intros Hst Hne Hgone.
  assert (H : default [] (settings (fresh prefs) !! py "saveLocation")
              = stored)
    by (change (default [] (prefs !! py "saveLocation") = stored);
        by rewrite Hst).
  unfold __init__, _init_ui, _load_preferences, _update_game.
  run. unfold path_exists. run. fields'.
  repeat change (settings _ !! py "saveLocation")
    with (settings (fresh prefs) !! py "saveLocation").
  rewrite !H.
  destruct stored as [|c rest] eqn:E; [done|]. cbn [truthy]. run.
  unfold fresh. fields'.
  rewrite Hgone. rewrite bool_decide_eq_false_2 by (by intros [? ?]).
  rewrite append_message_run. fields'. rewrite <- app_assoc. reflexivity.
Qed.

(** Without a stored preference, or with an empty one, the object starts
    with no live save.  With a stored path at which nothing exists, the
    live save path is set to that path all the same, while no archive
    directory and no quick-save path are derived and no file is touched:
    the transfers will not report that no game is selected, although the
    start-up message says so. *)
Theorem init_from_preferences (prefs : gmap str str) (w : World) :
  let r := __init__ (fresh prefs, w) in
  (default [] (prefs !! py "saveLocation") = [] →
   r.1 = Returned () ∧ save_location r.2.1 = None ∧ fs r.2.2 = fs w)
  ∧ (∀ stored, prefs !! py "saveLocation" = Some stored → stored ≠ [] →
       fs w !! parse stored = None →
       r.1 = Returned ()
       ∧ save_location r.2.1 = Some (parse stored)
       ∧ save_folder r.2.1 = None
       ∧ quick_save_location r.2.1 = None
       ∧ fs r.2.2 = fs w
       ∧ main_message r.2.1
         = [message_item (clock w (ticks w)) msg_no_game_selected]).
Proof.
  intros r. subst r. split.
  - intros Hnone.
    assert (H : default [] (settings (fresh prefs) !! py "saveLocation") = [])
      by exact Hnone.
    unfold __init__, _init_ui, _load_preferences, _update_game.
    run. unfold path_exists. run. fields'.
    change (settings _ !! py "saveLocation")
      with (settings (fresh prefs) !! py "saveLocation") at 1.
    rewrite H. cbn [truthy]. run. unfold fresh. fields'.
    rewrite append_message_run. by split_and!.
  - intros stored Hst Hne Hgone.
    rewrite (init_with_stale_preference prefs w stored) by done.
    unfold fresh. fields'. by split_and!.
Qed.

(** After a start with a stored path at which nothing exists, quick save
    is silent: it returns, and the session, the files and the message
    list are exactly what the start left.  No copy is tried and no
    message tells the user that nothing was saved. *)
Theorem stale_preference_silences_quick_save (prefs : gmap str str)
    (w : World) (stored : str) :
  prefs !! py "saveLocation" = Some stored → stored ≠ [] →
  fs w !! parse stored = None →
  let s := (__init__ (fresh prefs, w)).2 in
  _quick_save s = (Returned (), s)
  ∧ main_message s.1 = [message_item (clock w (ticks w)) msg_no_game_selected].
Proof.
  intros Hst Hne Hgone s. subst s.
  rewrite (init_with_stale_preference prefs w stored) by done. cbn [snd].
  split; [|by fields'].
  apply (quick_save_without_quick_path _ _ (parse stored));
    unfold fresh; by fields'.
Qed.

(** ** The stored preference *)

Lemma split_no_sep (sep : N) (s : str) : sep ∉ s → split sep s = [s].
Proof.
  induction s as [|c s IH]; [done|]. intros [Hc Hs]%not_elem_of_cons.
  cbn [split]. destruct (N.eqb_spec c sep) as [->|_]; [done|].
  by rewrite IH.
Qed.

Lemma split_app_sep (sep : N) (c rest : str) :
  sep ∉ c → split sep (c ++ sep :: rest) = c :: split sep rest.
Proof.
  induction c as [|x c IH]; intros Hc; cbn [app split].
  - by rewrite N.eqb_refl.
  - apply not_elem_of_cons in Hc as [Hx Hc].
    destruct (N.eqb_spec x sep) as [->|_]; [done|]. by rewrite IH.
Qed.

Lemma split_join (comps : list str) :
  comps ≠ [] → Forall (λ c, slash ∉ c) comps →
  split slash (join [slash] comps) = comps.
Proof.
  intros Hne Hall. induction Hall as [|c comps Hc Hall IH]; [done|].
  destruct comps as [|c' comps].
  - cbn [join]. by apply split_no_sep.
  - cbn [join app]. rewrite split_app_sep by done. f_equal. by apply IH.
Qed.

Lemma split_no_slash (sep : N) (s : str) : Forall (λ c, sep ∉ c) (split sep s).
Proof.
  induction s as [|c s IH]; cbn [split].
  - constructor; [apply not_elem_of_nil|constructor].
  - destruct (N.eqb_spec c sep) as [->|Hne].
    + constructor; [apply not_elem_of_nil|done].
    + destruct (split sep s) as [|w ws]; [repeat constructor|].
      * by intros [?|?%elem_of_nil]%elem_of_cons.
      * inversion_clear IH as [|?? Hw Hws]. constructor; [|done].
        by intros [?|?]%elem_of_cons.
Qed.

Lemma parse_parsed (s : str) : parsed (parse s).
Proof.
  unfold parse, parsed. destruct (splitroot s) as [rt rel] eqn:E. cbn [root tail].
  split.
  - revert E. unfold splitroot. destruct s as [|c s']; [intros [= <- _]; set_solver|].
    destruct (N.eqb c slash); [|intros [= <- _]; set_solver].
    destruct (Nat.eqb _ 2); intros [= <- _]; set_solver.
  - apply Forall_forall. intros c [[H1 H2] Hin]%list_elem_of_filter.
    split_and!; [done..|].
    by apply (proj1 (Forall_forall _ _) (split_no_slash slash rel)).
Qed.

Lemma lstrip_no_slash (s : str) : head s ≠ Some slash → lstrip slash s = s.
Proof.
  destruct s as [|c s]; [done|]. cbn. intros H.
  destruct (N.eqb_spec c slash) as [->|_]; [done|done].
Qed.

(** The tail of a parsed path, written out and split again. *)
Lemma parsed_tail_back (tl : list str) :
  Forall (λ c, c ≠ [] ∧ c ≠ [dot] ∧ slash ∉ c) tl →
  head (join [slash] tl) ≠ Some slash
  ∧ filter (λ x, x ≠ [] ∧ x ≠ [dot]) (split slash (join [slash] tl)) = tl.
Proof.
  intros Hall. destruct tl as [|c tl]; [done|]. split.
  - inversion_clear Hall as [|?? (Hc & _ & Hs) _].
    destruct c as [|x c]; [done|]. apply not_elem_of_cons in Hs as [Hx _].
    destruct tl; cbn; by intros [= ->].
  - rewrite split_join; [|done|by eapply Forall_impl; [exact Hall|intros ? (_ & _ & ?)]].
    clear -Hall. induction Hall as [|x l (H1 & H2 & _) _ IH]; [done|].
    rewrite filter_cons_True by done. by rewrite IH.
Qed.

(** The update that follows a selection does not touch the preferences. *)
Lemma update_game_same_prefs (s : CoGSaver * World) :
  settings (_update_game s).2.1 = settings s.1.
Proof.
  assert (H : always (λ s s', settings s'.1 = settings s.1) _update_game).
  { assert (PreOrder (λ s s' : CoGSaver * World, settings s'.1 = settings s.1)).
    { split; [done|]. intros ???. congruence. }
    unfold _update_game, _generate_saves_list, _append_message.
    always_go ltac:(unfold path_mkdir; open_leaf; done). }
  apply H.
Qed.

(** Writing a parsed path and parsing it again gives the path back. *)
Lemma parse_to_str (p : Path) : parsed p → parse (to_str p) = p.
Proof.
  destruct p as [rt tl]. intros [Hrt Htl]. cbn [root tail] in *.
  destruct (parsed_tail_back tl Htl) as [Hhead Hback].
  unfold to_str, parse. cbn [root tail].
  apply elem_of_cons in Hrt as [->|Hrt]; [|apply elem_of_cons in Hrt as [->|Hrt]].
  - cbn [app]. destruct (join [slash] tl) as [|c s] eqn:E.
    + destruct tl; [reflexivity|]. by rewrite <- Hback.
    + unfold splitroot. destruct (N.eqb_spec c slash) as [->|_]; [done|].
      by rewrite Hback.
  - cbn [app]. unfold splitroot. rewrite N.eqb_refl.
    cbn [lstrip]. rewrite N.eqb_refl, lstrip_no_slash by done.
    cbn [length]. replace (S (length (join [slash] tl)) - length (join [slash] tl))%nat
      with 1%nat by lia.
    cbn [Nat.eqb]. by rewrite Hback.
  - apply list_elem_of_singleton in Hrt as ->.
    cbn [app]. unfold splitroot. rewrite N.eqb_refl.
    cbn [lstrip]. rewrite !N.eqb_refl, lstrip_no_slash by done.
    cbn [length].
    replace (S (S (length (join [slash] tl))) - length (join [slash] tl))%nat
      with 2%nat by lia.
    cbn [Nat.eqb]. by rewrite Hback.
Qed.

(** A valid selection is stored, and read back at the next start it is
    the same path.  When the user picks a file whose name ends with
    PSstate, the preference holds the text of the picked path (as picked,
    not in canonical form), whatever becomes of the update that follows;
    and loading the preferences into a fresh object sets its live save
    path to the picked path. *)
Theorem selection_is_persisted (self : CoGSaver) (w : World)
    (getOpenFileName : str → str) :
  let file_path :=
    getOpenFileName
      (from_option (λ loc, to_str (parent loc)) [] (save_location self)) in
  file_path ≠ [] →
  py "PSstate" `suffix_of` name (parse file_path) →
  let r := _change_game getOpenFileName (self, w) in
  settings r.2.1 !! py "saveLocation" = Some (to_str (parse file_path))
  ∧ save_location (_load_preferences (fresh (settings r.2.1), r.2.2)).2.1
    = Some (parse file_path).
Proof.
  intros file_path Hne Hsuf r.
  assert (Hset : settings r.2.1 !! py "saveLocation"
                 = Some (to_str (parse file_path))).
  { subst r. unfold _change_game. run.
    replace (getOpenFileName _) with file_path
      by (subst file_path; by destruct (save_location self)).
    destruct file_path as [|c rest] eqn:E; [done|]. cbn [truthy].
    unfold endswith. rewrite bool_decide_eq_true_2 by done.
    rewrite append_message_run. fields'.
    match goal with |- context [_update_game ?s] =>
      pose proof (update_game_same_prefs s) as Hu;
      destruct (_update_game s) as [[[]|e] s'] end; fields';
    cbn [fst snd] in Hu; rewrite Hu; fields'; apply lookup_insert_eq. }
  split; [exact Hset|].
  unfold _load_preferences. run. unfold fresh at 1. fields'.
  change (settings _ !! py "saveLocation")
    with (settings r.2.1 !! py "saveLocation").
  rewrite Hset. cbn [default from_option]. unfold id.
  destruct (to_str (parse file_path)) as [|c s] eqn:E.
  - exfalso. revert E. unfold to_str. by destruct (root _ ++ _).
  - cbn [truthy]. rewrite <- E. unfold set_self, fresh. fields'.
    by rewrite parse_to_str by apply parse_parsed.
Qed.

(** ** Archive saves *)

(** The whole run of a successful creation, from the state [s] that the
    derivation of the suggested name left. *)
Lemma create_perm_save_run (self : CoGSaver) (w : World) (live target : Path)
    (save_dialog : str → str) (nm : str) (b : list byte) :
  save_location self = Some live →
  (_parse_save (self, w)).1 = Returned nm →
  let s := (_parse_save (self, w)).2 in
  let save_path :=
    save_dialog (match save_folder self with
                 | Some folder => to_str (folder // nm)
                 | None => nm
                 end) in
  save_path ≠ [] →
  target_of save_path = Some target →
  fs w !! live = Some (File b) →
  live ≠ target →
  is_dir (fs w) target = false →
  fs w !! parent target = Some Dir →
  _create_perm_save save_dialog (self, w)
  = (Returned (),
     (with_main_message
        (main_message s.1
         ++ [message_item (clock s.2 (ticks s.2))
               (py "Saved to " ++ to_str target)]) s.1,
      with_ticks (S (ticks s.2))
        (with_fs (<[target := File b]> (fs w))
           (with_io_log (io_log s.2 ++ [IoCopy live target]) s.2)))).
Proof.
  intros Hlive Hparse s save_path Hne Htarget Hb Hdiff Hdir Hpar.
  pose proof (parse_save_same_files (self, w)) as Hfs.
  unfold same_files in Hfs. cbn [fst snd] in Hfs. fold s in Hfs.
  unfold _create_perm_save. run. rewrite Hlive. subst s.
  destruct (_parse_save (self, w)) as [o s]. cbn [fst snd] in *. subst o.
  fold save_path.
  destruct save_path as [|c rest] eqn:E; [done|]. cbn [truthy].
  rewrite Htarget. unfold shutil_copy2. run. fields'. rewrite Hfs.
  rewrite (copy2_file_to_file _ _ _ _ Hb Hdiff Hdir Hpar). cbn [sum_map].
  rewrite append_message_run. reflexivity.
Qed.

(** When the derivation of the suggested name returns, the live save is
    a regular file, and the target (the chosen path, with the extension
    added when it has no suffix) is another path, not a directory, in a
    directory that exists, the creation of an archive save succeeds: the
    target holds the bytes of the live save, no other path changes, the
    session is what it was, and the message names the target. *)
Theorem create_perm_save_effect (self : CoGSaver) (w : World)
    (live target : Path) (save_dialog : str → str) (nm : str) (b : list byte) :
  save_location self = Some live →
  (_parse_save (self, w)).1 = Returned nm →
  let save_path :=
    save_dialog (match save_folder self with
                 | Some folder => to_str (folder // nm)
                 | None => nm
                 end) in
  save_path ≠ [] →
  target_of save_path = Some target →
  fs w !! live = Some (File b) →
  live ≠ target →
  is_dir (fs w) target = false →
  fs w !! parent target = Some Dir →
  let r := _create_perm_save save_dialog (self, w) in
  r.1 = Returned ()
  ∧ fs r.2.2 !! target = Some (File b)
  ∧ (∀ p, p ≠ target → fs r.2.2 !! p = fs w !! p)
  ∧ save_location r.2.1 = Some live
  ∧ io_log r.2.2 = io_log (_parse_save (self, w)).2.2 ++ [IoCopy live target]
  ∧ ∃ t, last (main_message r.2.1)
         = Some (message_item t (py "Saved to " ++ to_str target)).
Proof.
  intros Hlive Hparse save_path Hne Htarget Hb Hdiff Hdir Hpar r. subst r.
  rewrite (create_perm_save_run self w live target save_dialog nm b) by done.
  fields'. rewrite last_snoc. split_and!; try reflexivity.
  - by rewrite lookup_insert_eq.
  - intros p Hp. by rewrite lookup_insert_ne.
  - pose proof (parse_save_same_session (self, w)) as (H & _).
    cbn [fst snd] in H. by rewrite H.
  - eauto.
Qed.

(** The whole run of a successful load. *)
Lemma load_perm_save_run (self : CoGSaver) (w : World) (live : Path)
    (open_dialog : str → str) (b : list byte) :
  save_location self = Some live →
  let save_path := open_dialog (from_option to_str [] (save_folder self)) in
  let save_file := parse save_path in
  save_path ≠ [] →
  fs w !! save_file = Some (File b) →
  save_file ≠ live →
  is_dir (fs w) live = false →
  fs w !! parent live = Some Dir →
  ∃ shown,
    shown_as self save_file shown
    ∧ _load_perm_save open_dialog (self, w)
    = (Returned (),
       (with_main_message
          (main_message self
           ++ [message_item (clock w (ticks w)) (py "Loaded: " ++ to_str shown)])
          self,
        with_ticks (S (ticks w))
          (with_fs (<[live := File b]> (fs w))
             (with_io_log (io_log w ++ [IoCopy save_file live]) w)))).
Proof.
  intros Hlive save_path save_file Hne Hb Hdiff Hdir Hpar.
  unfold _load_perm_save. run. rewrite Hlive. fold save_path.
  destruct save_path as [|c rest] eqn:E; [done|]. cbn [truthy].
  fold save_file. unfold shutil_copy2. run. fields'.
  rewrite (copy2_file_to_file _ _ _ _ Hb Hdiff Hdir Hpar). cbn [sum_map].
  match goal with
  | |- context [(match save_folder self with Some _ => _ | None => _ end) ?st] =>
      match goal with
      | |- context [?shows st] =>
          lazymatch shows with
          | match save_folder self with Some _ => _ | None => _ end =>
              assert (∃ shown, shown_as self save_file shown
                               ∧ shows st = (Returned shown, st))
                as (shown & Hshown & Hs)
          end
      end
  end.
  { unfold shown_as. destruct (save_folder self) as [folder|]; [|by eexists].
    case_bool_decide as Hin; [|by eexists].
    destruct (relative_to_parent_of_ancestor _ _ Hin) as [rel ->].
    by eexists. }
  rewrite Hs. rewrite append_message_run. exists shown. by split.
Qed.

(** When the chosen file is a regular file and the live save path is
    another path, not a directory, in a directory that exists, loading
    an archive save succeeds: the live save holds the bytes of the chosen
    file, no other path changes, and the message names the chosen file,
    relative to the parent of the archive directory when the file is
    below the archive directory, and as chosen otherwise. *)
Theorem load_perm_save_effect (self : CoGSaver) (w : World) (live : Path)
    (open_dialog : str → str) (b : list byte) :
  save_location self = Some live →
  let save_path := open_dialog (from_option to_str [] (save_folder self)) in
  let save_file := parse save_path in
  save_path ≠ [] →
  fs w !! save_file = Some (File b) →
  save_file ≠ live →
  is_dir (fs w) live = false →
  fs w !! parent live = Some Dir →
  let r := _load_perm_save open_dialog (self, w) in
  r.1 = Returned ()
  ∧ fs r.2.2 !! live = Some (File b)
  ∧ (∀ p, p ≠ live → fs r.2.2 !! p = fs w !! p)
  ∧ io_log r.2.2 = io_log w ++ [IoCopy save_file live]
  ∧ ∃ shown, shown_as self save_file shown
             ∧ last (main_message r.2.1)
               = Some (message_item (clock w (ticks w))
                         (py "Loaded: " ++ to_str shown)).
Proof.
  intros Hlive save_path save_file Hne Hb Hdiff Hdir Hpar r. subst r.
  destruct (load_perm_save_run self w live open_dialog b)
    as (shown & Hshown & E); try done.
  fold save_path save_file in E. rewrite E. fields'.
  split_and!; try reflexivity.
  - by rewrite lookup_insert_eq.
  - intros p Hp. by rewrite lookup_insert_ne.
  - exists shown. by rewrite last_snoc.
Qed.

(** Creating an archive save and loading it again restores the live
    save, also when the game has overwritten the live save in between:
    after the creation succeeds at [target], the live save is replaced by
    any bytes [b'], and the user loads the file at [target], the live save
    holds the bytes [b] it held when the archive save was created. *)
Theorem archive_round_trip (self : CoGSaver) (w : World) (live target : Path)
    (save_dialog open_dialog : str → str) (nm : str) (b b' : list byte) :
  save_location self = Some live →
  (_parse_save (self, w)).1 = Returned nm →
  let save_path :=
    save_dialog (match save_folder self with
                 | Some folder => to_str (folder // nm)
                 | None => nm
                 end) in
  save_path ≠ [] →
  target_of save_path = Some target →
  fs w !! live = Some (File b) →
  fs w !! parent live = Some Dir →
  live ≠ target →
  is_dir (fs w) target = false →
  fs w !! parent target = Some Dir →
  let load_path := open_dialog (from_option to_str [] (save_folder self)) in
  load_path ≠ [] →
  parse load_path = target →
  let s1 := (_create_perm_save save_dialog (self, w)).2 in
  let s2 := (s1.1, with_fs (<[live := File b']> (fs s1.2)) s1.2) in
  let r := _load_perm_save open_dialog s2 in
  r.1 = Returned ()
  ∧ fs r.2.2 !! live = Some (File b)
  ∧ fs r.2.2 !! target = Some (File b).
Proof.
  intros Hlive Hparse save_path Hne Htarget Hb Hparl Hdiff Hdir Hpar
    load_path Hne2 Hload s1 s2 r.
  pose proof (parse_save_same_session (self, w)) as (Hs1 & Hs2 & _).
  cbn [fst snd] in Hs1, Hs2. set (s := (_parse_save (self, w)).2) in *.
  assert (E1 : s1 = (with_main_message
        (main_message s.1
         ++ [message_item (clock s.2 (ticks s.2))
               (py "Saved to " ++ to_str target)]) s.1,
      with_ticks (S (ticks s.2))
        (with_fs (<[target := File b]> (fs w))
           (with_io_log (io_log s.2 ++ [IoCopy live target]) s.2)))).
  { subst s1.
    by rewrite (create_perm_save_run self w live target save_dialog nm b). }
  assert (Hpl : parent live ≠ live).
  { intros Heq. rewrite Heq in Hparl. congruence. }
  assert (Hpt : parent live ≠ target).
  { intros Heq. rewrite Heq in Hparl. unfold is_dir in Hdir.
    by rewrite Hparl in Hdir. }
  destruct (load_perm_save_run s2.1 s2.2 live open_dialog b)
    as (shown & _ & E2).
  - subst s2. rewrite E1. fields'. by rewrite Hs1.
  - subst s2. rewrite E1. fields'. rewrite Hs2. exact Hne2.
  - subst s2. rewrite E1. fields'. rewrite Hs2. fold load_path.
    rewrite Hload, lookup_insert_ne, lookup_insert_eq by done. done.
  - subst s2. rewrite E1. fields'. rewrite Hs2. fold load_path.
    rewrite Hload. done.
  - subst s2. rewrite E1. fields'. unfold is_dir.
    by rewrite lookup_insert_eq.
  - subst s2. rewrite E1. fields'.
    by rewrite !lookup_insert_ne by done.
  - subst r. replace s2 with (s2.1, s2.2) by (by destruct s2).
    rewrite E2. fields'. subst s2. rewrite E1. fields'.
    split_and!; [done|by rewrite lookup_insert_eq|].
    rewrite lookup_insert_ne, lookup_insert_ne, lookup_insert_eq by done.
    done.
Qed.

(** ** The message list *)

Lemma message_time_format (t : datetime) :
  strftime fmt_message t
  = pad2 (hour t) ++ [58] ++ pad2 (minute t) ++ [58] ++ pad2 (second t).
Proof. reflexivity. Qed.

Lemma digit_not_newline (n : nat) : digit n ≠ newline.
Proof. unfold digit, newline. lia. Qed.

(** An item of the message list holds no line break: the time of day in
    brackets, then the message with each line break turned into a space. *)
Lemma message_item_single_line (t : datetime) (msg : str) :
  newline ∉ message_item t msg.
Proof.
  assert (Hd : ∀ n, newline ∉ pad2 n).
  { intros n. unfold pad2. rewrite !not_elem_of_cons.
    split_and!; [..|apply not_elem_of_nil];
      intros H; by apply (digit_not_newline _ (eq_sym H)). }
  unfold message_item. rewrite message_time_format.
  rewrite !elem_of_app.
  intros [H|[[H|[H|[H|[H|H]]]]|[H|H]]];
    try (by apply Hd in H); try (revert H; evaluate).
  unfold replace_char in H. apply list_elem_of_bind in H.
  destruct H as (c & Hc & _).
  destruct (decide (c = newline)) as [Heq|Hne].
  - rewrite Heq, N.eqb_refl in Hc. revert Hc. evaluate.
  - rewrite (proj2 (N.eqb_neq _ _) Hne) in Hc.
    apply list_elem_of_singleton in Hc. congruence.
Qed.

#[global] Instance keeps_single_lines_preorder : PreOrder keeps_single_lines.
Proof.
  split; [intros s H; exact H|]. intros s1 s2 s3 H1 H2 H. apply H2, H1, H.
Qed.

Create HintDb lines discriminated.

Lemma append_message_single_lines msg :
  always keeps_single_lines (_append_message msg).
Proof.
  intros [self w] H. rewrite append_message_run. unfold single_lines. fields'.
  apply Forall_app. split; [exact H|].
  constructor; [apply message_item_single_line|constructor].
Qed.

Ltac single_lines :=
  always_go ltac:(first
    [ solve [auto with lines]
    | unfold path_mkdir, shutil_copy2; open_leaf;
      unfold keeps_single_lines, single_lines; fields';
      first
        [ done
        | intros ?; apply Forall_app; split; [done|];
          constructor; [apply message_item_single_line|constructor] ] ]).
#[local] Hint Resolve append_message_single_lines : lines.

Lemma generate_saves_list_single_lines :
  always keeps_single_lines _generate_saves_list.
Proof. unfold _generate_saves_list. single_lines. Qed.
#[local] Hint Resolve generate_saves_list_single_lines : lines.

Lemma update_game_single_lines : always keeps_single_lines _update_game.
Proof. unfold _update_game. single_lines. Qed.
#[local] Hint Resolve update_game_single_lines : lines.

Lemma parse_save_single_lines : always keeps_single_lines _parse_save.
Proof. unfold _parse_save. single_lines. Qed.
#[local] Hint Resolve parse_save_single_lines : lines.

(** Every item of the message list is a single line, and stays one: an
    item added by [_append_message] holds no line break (each one of the
    message is turned into a space), and no method adds an item in another
    way.  So a list of single lines is a list of single lines after any
    method, and the list built from the start holds single lines only. *)
Theorem messages_are_single_lines (open_dialog save_dialog : str → str) :
  (∀ t msg, newline ∉ message_item t msg)
  ∧ always keeps_single_lines __init__
  ∧ always keeps_single_lines (_change_game open_dialog)
  ∧ always keeps_single_lines _quick_save
  ∧ always keeps_single_lines _quick_load
  ∧ always keeps_single_lines (_create_perm_save save_dialog)
  ∧ always keeps_single_lines (_load_perm_save open_dialog)
  ∧ (∀ prefs w, single_lines (__init__ (fresh prefs, w)).2.1).
Proof.
  assert (Hinit : always keeps_single_lines __init__)
    by (unfold __init__, _init_ui, _load_preferences; single_lines).
  split_and!.
  - apply message_item_single_line.
  - exact Hinit.
  - unfold _change_game. single_lines.
  - unfold _quick_save. single_lines.
  - unfold _quick_load. single_lines.
  - unfold _create_perm_save. single_lines.
  - unfold _load_perm_save. single_lines.
  - intros prefs w. apply (Hinit (fresh prefs, w)). constructor.
Qed.

(** ** The properties above, on the sample sessions *)

Lemma stale_preference_silences_quick_save_witness :
  files !! gone = None
  ∧ _quick_save (__init__ (fresh stale_prefs, world files)).2
    = (Returned (), (__init__ (fresh stale_prefs, world files)).2).
Proof.
  assert (H : files !! gone = None) by evaluate. split; [exact H|].
  destruct (stale_preference_silences_quick_save stale_prefs (world files)
              (py "/g/gone/storePSgamePSstate")) as [E _];
    [evaluate|evaluate|exact H|exact E].
Defined.

Lemma quick_save_missing_live_save_witness :
  files !! gone = None
  ∧ (_quick_save (lost, world files)).1 = Returned ()
  ∧ fs (_quick_save (lost, world files)).2.2 = files
  ∧ main_message (_quick_save (lost, world files)).2.1
    = [py "[12:30:00] Error: [Errno 2] No such file or directory: '/g/gone/storePSgamePSstate'";
       py "[12:30:01] Quicksave failed"].
Proof.
  assert (H : files !! gone = None) by evaluate. split; [exact H|].
  destruct (quick_save_missing_live_save lost (world files) gone
              (P "/g/quicksave.cogsav") eq_refl eq_refl H)
    as (H1 & H2 & _ & H4); [evaluate|].
  split; [exact H1|]. split; [exact H2|]. rewrite H4. evaluate.
Defined.

Lemma quick_save_effect_witness :
  fs (_quick_save (session, world files)).2.2 !! P "/g/quicksave.cogsav"
  = Some (File (ascii_bytes live_text)).
Proof.
  destruct (quick_save_effect session (world files) live
              (P "/g/quicksave.cogsav") (ascii_bytes live_text))
    as (_ & _ & H & _); [reflexivity|reflexivity|evaluate..|exact H].
Defined.

Lemma quick_load_effect_witness :
  fs (_quick_load (session, world saved)).2.2 !! live = Some (File [x71]).
Proof.
  destruct (quick_load_effect session (world saved) live
              (P "/g/quicksave.cogsav") [x71])
    as (_ & _ & H & _); [reflexivity|reflexivity|evaluate..|exact H].
Defined.

Lemma cancelled_dialogs_witness :
  _change_game (λ _, []) (session, world files)
  = (Returned (), (session, world files))
  ∧ _load_perm_save (λ _, []) (session, world files)
    = (Returned (), (session, world files)).
Proof.
  destruct (cancelled_dialogs session (world files)) as [H1 H2].
  split; [exact H1|]. by destruct (H2 live eq_refl) as [H _].
Defined.

Lemma parse_save_sample :
  (_parse_save (session, world files)).1 = Returned avery.
Proof. evaluate. Qed.

Lemma create_perm_save_without_name_witness :
  name (parse (py "/")) = []
  ∧ (_create_perm_save (λ _, py "/") (session, world files)).1
    = Raised (Exn ValueError (py "/ has an empty name")).
Proof.
  split; [reflexivity|].
  destruct (create_perm_save_without_name session (world files) live
              (λ _, py "/") avery eq_refl parse_save_sample) as [-> _];
    [evaluate|reflexivity|evaluate].
Defined.

Lemma init_from_preferences_witness :
  save_location (__init__ (fresh stale_prefs, world files)).2.1 = Some gone
  ∧ save_folder (__init__ (fresh stale_prefs, world files)).2.1 = None.
Proof.
  destruct (init_from_preferences stale_prefs (world files)) as [_ H].
  destruct (H (py "/g/gone/storePSgamePSstate")) as (_ & H2 & H3 & _);
    [evaluate..|].
  rewrite H2, H3. split; [evaluate|reflexivity].
Defined.

Lemma selection_is_persisted_witness :
  settings (_change_game (λ _, to_str live) (fresh ∅, world files)).2.1
    !! py "saveLocation"
  = Some (py "/g/storePSgamePSstate").
Proof.
  destruct (selection_is_persisted (fresh ∅) (world files) (λ _, to_str live))
    as [H _]; [evaluate..|].
  rewrite H. evaluate.
Defined.

Lemma create_perm_save_effect_witness :
  fs (_create_perm_save id (session, world files)).2.2 !! avery_path
  = Some (File (ascii_bytes live_text)).
Proof.
  destruct (create_perm_save_effect session (world files) live avery_path id
              avery (ascii_bytes live_text) eq_refl parse_save_sample)
    as (_ & H & _); [evaluate..|exact H].
Defined.

Lemma load_perm_save_effect_witness :
  fs (_load_perm_save (λ _, py "/g/saves/a.cogsav") (session, world files)).2.2
    !! live
  = Some (File [x61]).
Proof.
  destruct (load_perm_save_effect session (world files) live
              (λ _, py "/g/saves/a.cogsav") [x61] eq_refl)
    as (_ & H & _); [evaluate..|exact H].
Defined.

Lemma archive_round_trip_witness :
  fs (_load_perm_save (λ _, to_str avery_path)
        ((_create_perm_save id (session, world files)).2.1,
         with_fs
           (<[live := File []]>
              (fs (_create_perm_save id (session, world files)).2.2))
           (_create_perm_save id (session, world files)).2.2)).2.2 !! live
  = Some (File (ascii_bytes live_text)).
Proof.
  destruct (archive_round_trip session (world files) live avery_path id
              (λ _, to_str avery_path) avery (ascii_bytes live_text) []
              eq_refl parse_save_sample)
    as (_ & H & _); [evaluate..|exact H].
Defined.
